(** * Logic functors of the vvp runtime (vvp/logic.cc)

    A shallow embedding of the functors implemented in [vvp/logic.cc]:
    the table functor, the scheduled boolean gate (AND), the buffers,
    the real and vector multiplexers, and the construction routine
    [compile_functor].  A receive method becomes a function from the
    functor's member variables, the destination pointer and the value
    received to an [outcome]: either the members after the call together
    with the trace of calls made to the propagation primitives and to the
    scheduler, or [Abort] when an assertion fails. *)

From Stdlib Require Import ZArith List Bool Lia String PrimFloat.
Import ListNotations.

(** ** Four-valued bits *)

Module Bit4.

(** Modelled from the spec: the enumeration [vvp_bit4_t] is declared in
    vvp_net.h, which is not among the sources.  The spec gives the value
    domain as {0, 1, X(unknown), Z(floating)}. *)
Inductive vvp_bit4_t : Type := BIT4_0 | BIT4_1 | BIT4_X | BIT4_Z.

Definition eqb (a b : vvp_bit4_t) : bool :=
  match a, b with
  | BIT4_0, BIT4_0 | BIT4_1, BIT4_1 | BIT4_X, BIT4_X | BIT4_Z, BIT4_Z => true
  | _, _ => false
  end.

(** Modelled from the spec: the numeric values of the enumerators (the
    declaration is missing).  They are the two-bit codes of the domain in
    the order the spec lists it; [table_functor_s::recv_vec4] relies on
    the truth tables using the same codes. *)
Definition code (b : vvp_bit4_t) : Z :=
  match b with
  | BIT4_0 => 0
  | BIT4_1 => 1
  | BIT4_X => 2
  | BIT4_Z => 3
  end.

(** The cast [(vvp_bit4_t)bit_val] of a value already masked with 3. *)
Definition of_code (z : Z) : vvp_bit4_t :=
  if (z =? 0)%Z then BIT4_0
  else if (z =? 1)%Z then BIT4_1
  else if (z =? 2)%Z then BIT4_X
  else BIT4_Z.

(** Modelled from the spec: [operator &] on [vvp_bit4_t] is defined in
    vvp_net.cc, which is not among the sources.  The spec: a 0 operand
    gives 0 whatever the other operand is; otherwise an unknown (or
    floating, which a gate cannot represent) operand gives unknown. *)
Definition bit4_and (a b : vvp_bit4_t) : vvp_bit4_t :=
  match a, b with
  | BIT4_0, _ => BIT4_0
  | _, BIT4_0 => BIT4_0
  | BIT4_1, BIT4_1 => BIT4_1
  | _, _ => BIT4_X
  end.

Definition is_xz (b : vvp_bit4_t) : bool :=
  match b with
  | BIT4_X | BIT4_Z => true
  | _ => false
  end.

End Bit4.
Export Bit4.

(** ** Vectors of four-valued bits *)

Module Vec4.

(** Modelled from the spec: the class [vvp_vector4_t] is declared in
    vvp_net.h, which is not among the sources.  The spec: an ordered,
    fixed-length sequence of bit values, constructed all-unknown, with
    get/set by index, size, structural equality and the transform that
    turns every floating bit into unknown. *)
Definition vvp_vector4_t : Type := list vvp_bit4_t.

Definition size (v : vvp_vector4_t) : nat := List.length v.

(** [vvp_vector4_t(wid)]: [wid] unknown bits. *)
Definition make (wid : nat) : vvp_vector4_t := repeat BIT4_X wid.

(** [v.value(idx)]; a read beyond the width gives unknown. *)
Definition value (v : vvp_vector4_t) (idx : nat) : vvp_bit4_t :=
  nth idx v BIT4_X.

(** [v.set_bit(idx, b)]; the callers only write below the width. *)
Fixpoint set_bit (v : vvp_vector4_t) (idx : nat) (b : vvp_bit4_t)
  : vvp_vector4_t :=
  match v, idx with
  | [], _ => []
  | _ :: tl, O => b :: tl
  | hd :: tl, S i => hd :: set_bit tl i b
  end.

(** [a.eeq(b)]: same width and the same bit at every index. *)
Fixpoint eeq (a b : vvp_vector4_t) : bool :=
  match a, b with
  | [], [] => true
  | x :: a', y :: b' => Bit4.eqb x y && eeq a' b'
  | _, _ => false
  end.

(** [v.change_z2x()]. *)
Definition change_z2x (v : vvp_vector4_t) : vvp_vector4_t :=
  map (fun b => match b with BIT4_Z => BIT4_X | _ => b end) v.

End Vec4.
Export Vec4.

(** ** Pointers, effects and outcomes *)

(** A [vvp_net_t*] is an index into the arena of nets. *)
Definition net_id : Type := nat.

(** The port field of a [vvp_net_ptr_t] is two bits wide. *)
Inductive port_t : Type := P0 | P1 | P2 | P3.

Definition port_index (p : port_t) : nat :=
  match p with P0 => 0 | P1 => 1 | P2 => 2 | P3 => 3 end.

Record vvp_net_ptr_t : Type := mk_ptr { ptr_net : net_id; ptr_port : port_t }.

(** What a method does besides updating its own members: values handed to
    the propagation primitives along the [out] pointer of a net, and
    requests made to the scheduler. *)
Inductive action : Type :=
| Send_vec4 (from : net_id) (v : vvp_vector4_t)
    (* vvp_send_vec4(from->out, v) *)
| Send_real (from : net_id) (r : float)
    (* vvp_send_real(from->out, r) *)
| Schedule_generic (delay : nat) (sync : bool).
    (* schedule_generic(this, delay, sync) *)

Inductive outcome (A : Type) : Type :=
| Done (a : A)
| Abort.   (* a failed assert *)
Arguments Done {A} a.
Arguments Abort {A}.

(** [for (idx = lo; idx < hi; idx += 1) body], threading the variables
    the body assigns. *)
Definition for_loop {A : Type} (lo hi : nat) (body : nat -> A -> A) (acc : A) : A :=
  fold_left (fun a idx => body idx a) (seq lo (hi - lo)) acc.

(** The array [input_[4]] of a functor. *)
Record inputs4 : Type :=
  mk_inputs { in0 : vvp_vector4_t; in1 : vvp_vector4_t;
              in2 : vvp_vector4_t; in3 : vvp_vector4_t }.

Definition get_input (a : inputs4) (p : port_t) : vvp_vector4_t :=
  match p with P0 => in0 a | P1 => in1 a | P2 => in2 a | P3 => in3 a end.

Definition set_input (a : inputs4) (p : port_t) (v : vvp_vector4_t) : inputs4 :=
  match p with
  | P0 => mk_inputs v (in1 a) (in2 a) (in3 a)
  | P1 => mk_inputs (in0 a) v (in2 a) (in3 a)
  | P2 => mk_inputs (in0 a) (in1 a) v (in3 a)
  | P3 => mk_inputs (in0 a) (in1 a) (in2 a) v
  end.

(** ** The vector multiplexer, [vvp_fun_muxz] *)

Module Muxz.

Record vvp_fun_muxz : Type :=
  mk { a_ : vvp_vector4_t; b_ : vvp_vector4_t; select_ : Z }.

(** The constructor [vvp_fun_muxz(wid)]. *)
Definition create (wid : nat) : vvp_fun_muxz :=
  let set_x idx ab := (set_bit (fst ab) idx BIT4_X, set_bit (snd ab) idx BIT4_X) in
  let ab := for_loop 0 wid set_x (make wid, make wid) in
  mk (fst ab) (snd ab) 2.

(** The body of the [default] branch of the second switch: the vector
    built when the select is neither 0 nor 1. *)
Definition reconcile (a b : vvp_vector4_t) : vvp_vector4_t :=
  let min_size := size a in
  let max_size := size a in
  let min_size := if size b <? min_size then size b else min_size in
  let max_size := if max_size <? size b then size b else max_size in
  let res := make max_size in
  let res := for_loop 0 min_size
               (fun idx res =>
                  if Bit4.eqb (value a idx) (value b idx)
                  then set_bit res idx (value a idx)
                  else set_bit res idx BIT4_X) res in
  for_loop min_size max_size (fun idx res => set_bit res idx BIT4_X) res.

(** The second switch of [recv_vec4]: what is sent for the members. *)
Definition output (s : vvp_fun_muxz) : vvp_vector4_t :=
  if (select_ s =? 0)%Z then a_ s
  else if (select_ s =? 1)%Z then b_ s
  else reconcile (a_ s) (b_ s).

(** The first switch of [recv_vec4]: latch the value, or return. *)
Definition latch (s : vvp_fun_muxz) (p : port_t) (bit : vvp_vector4_t)
  : outcome (option vvp_fun_muxz) :=
  match p with
  | P0 => Done (Some (mk bit (b_ s) (select_ s)))
  | P1 => Done (Some (mk (a_ s) bit (select_ s)))
  | P2 =>
      if negb (size bit =? 1) then Abort
      else
        let sel := match value bit 0 with
                   | BIT4_0 => 0%Z
                   | BIT4_1 => 1%Z
                   | _ => 2%Z
                   end in
        Done (Some (mk (a_ s) (b_ s) sel))
  | P3 => Done None
  end.

Definition recv_vec4 (s : vvp_fun_muxz) (ptr : vvp_net_ptr_t) (bit : vvp_vector4_t)
  : outcome (vvp_fun_muxz * list action) :=
  match latch s (ptr_port ptr) bit with
  | Abort => Abort
  | Done None => Done (s, [])
  | Done (Some s') => Done (s', [Send_vec4 (ptr_net ptr) (output s')])
  end.

End Muxz.

(** ** The table functor, [table_functor_s] *)

Module Table.

(** [truth_t] is a pointer to the bytes of a truth table; each byte packs
    four two-bit results. *)
Definition truth_t : Type := list Z.

Record table_functor_s : Type := mk { table : truth_t; input_ : inputs4 }.

(** The constructor leaves the four inputs default-constructed (width 0). *)
Definition create (t : truth_t) : table_functor_s :=
  mk t (mk_inputs [] [] [] []).

(** [lookup <<= 2] on a 32-bit unsigned. *)
Definition shl2 (lookup : Z) : Z := (Z.shiftl lookup 2 mod 2 ^ 32)%Z.

(** The body of the loop over [pdx], for the port [pdx-1]. *)
Definition lookup_step (inp : inputs4) (idx : nat) (lookup : Z) (p : port_t) : Z :=
  let lookup := shl2 lookup in
  if idx <? size (get_input inp p)
  then Z.lor lookup (code (value (get_input inp p) idx))
  else lookup.

(** The loop [for (pdx = 4; pdx > 0; pdx -= 1)] from [lookup = 0]. *)
Definition lookup_at (inp : inputs4) (idx : nat) : Z :=
  fold_left (lookup_step inp idx) [P3; P2; P1; P0] 0%Z.

(** From [lookup] to the bit written into the result. *)
Definition table_bit (t : truth_t) (lookup : Z) : vvp_bit4_t :=
  let off := (lookup / 4)%Z in
  let shift := (lookup mod 4 * 2)%Z in
  let bit_val := Z.shiftr (nth (Z.to_nat off) t 0%Z) shift in
  let bit_val := Z.land bit_val 3 in
  of_code bit_val.

(** The vector built by the loop over [idx], for the inputs as they are
    after the assignment to [input_[ptr.port()]]. *)
Definition result_of (t : truth_t) (inp : inputs4) (wid : nat) : vvp_vector4_t :=
  let result := make wid in
  for_loop 0 wid
    (fun idx result => set_bit result idx (table_bit t (lookup_at inp idx)))
    result.

Definition recv_vec4 (s : table_functor_s) (ptr : vvp_net_ptr_t) (val : vvp_vector4_t)
  : outcome (table_functor_s * list action) :=
  let input' := set_input (input_ s) (ptr_port ptr) val in
  let result := result_of (table s) input' (size val) in
  Done (mk (table s) input', [Send_vec4 (ptr_net ptr) result]).

(** The vector a receive hands to [vvp_send_vec4], if it sends one. *)
Definition sent (r : outcome (table_functor_s * list action)) : option vvp_vector4_t :=
  match r with
  | Done (_, [Send_vec4 _ v]) => Some v
  | _ => None
  end.

(** A table generator for a four-input bit function, with the codes of
    [vvp_bit4_t]: entry [i] holds the result for the inputs packed in [i]. *)
Definition unpack (i : Z) (k : Z) : vvp_bit4_t :=
  of_code (Z.land (Z.shiftr i (2 * k)) 3).

Definition gen_byte (f : vvp_bit4_t -> vvp_bit4_t -> vvp_bit4_t -> vvp_bit4_t -> vvp_bit4_t)
  (off : Z) : Z :=
  fold_right
    (fun k acc =>
       let i := (off * 4 + k)%Z in
       Z.lor acc (Z.shiftl (code (f (unpack i 0) (unpack i 1) (unpack i 2) (unpack i 3)))
                           (2 * k)))
    0%Z [0; 1; 2; 3]%Z.

Definition gen_table (f : vvp_bit4_t -> vvp_bit4_t -> vvp_bit4_t -> vvp_bit4_t -> vvp_bit4_t)
  : truth_t :=
  map (fun off => gen_byte f (Z.of_nat off)) (seq 0 64).

(** The four-valued OR of two bits and of four, used as a sample table. *)
Definition bit4_or (a b : vvp_bit4_t) : vvp_bit4_t :=
  match a, b with
  | BIT4_1, _ => BIT4_1
  | _, BIT4_1 => BIT4_1
  | BIT4_0, BIT4_0 => BIT4_0
  | _, _ => BIT4_X
  end.

Definition or4 (a b c d : vvp_bit4_t) : vvp_bit4_t :=
  bit4_or (bit4_or a b) (bit4_or c d).

(** What a port adds to [lookup] at a bit position: the code of its bit
    there, and nothing, which is the code of 0, when its vector is
    narrower than the position. *)
Definition contribution (inp : inputs4) (idx : nat) (p : port_t) : vvp_bit4_t :=
  if idx <? size (get_input inp p) then value (get_input inp p) idx else BIT4_0.

(** The spec's wording of the same: a narrower or absent port contributes
    unknown. *)
Definition contribution_as_stated (inp : inputs4) (idx : nat) (p : port_t)
  : vvp_bit4_t :=
  if idx <? size (get_input inp p) then value (get_input inp p) idx else BIT4_X.

(** Four bits packed two bits each, port 0 in the lowest two. *)
Definition packed (c0 c1 c2 c3 : vvp_bit4_t) : Z :=
  (code c0 + 4 * code c1 + 16 * code c2 + 64 * code c3)%Z.

End Table.

(** ** The scheduled boolean gates, [vvp_fun_boolean_] and [vvp_fun_and] *)

Module Boolean.

(** [net_] is only assigned by [recv_vec4]. *)
Record vvp_fun_boolean_ : Type := mk { input_ : inputs4; net_ : option net_id }.

Definition create (wid : nat) : vvp_fun_boolean_ :=
  mk (mk_inputs (make wid) (make wid) (make wid) (make wid)) None.

Definition recv_vec4 (s : vvp_fun_boolean_) (ptr : vvp_net_ptr_t) (bit : vvp_vector4_t)
  : outcome (vvp_fun_boolean_ * list action) :=
  let port := ptr_port ptr in
  if eeq (get_input (input_ s) port) bit then Done (s, [])
  else
    Done (mk (set_input (input_ s) (ptr_port ptr) bit) (Some (ptr_net ptr)),
          [Schedule_generic 0 false]).

(** The loop [for (pdx = 1; pdx < 4; pdx += 1)] of [vvp_fun_and::run_run]
    with its [break], over the inputs of the ports still to visit. *)
Fixpoint and_ports (ins : list vvp_vector4_t) (idx : nat) (bitbit : vvp_bit4_t)
  : vvp_bit4_t :=
  match ins with
  | [] => bitbit
  | inp :: rest =>
      if size inp <? idx then BIT4_X
      else and_ports rest idx (bit4_and bitbit (value inp idx))
  end.

(** The vector [vvp_fun_and::run_run] computes. *)
Definition and_result (inp : inputs4) : vvp_vector4_t :=
  let result := in0 inp in
  for_loop 0 (size result)
    (fun idx result =>
       let bitbit := value result idx in
       let bitbit := and_ports [in1 inp; in2 inp; in3 inp] idx bitbit in
       set_bit result idx bitbit)
    result.

(** [vvp_fun_and::run_run], the method the scheduler calls for a generic
    event; it dereferences [net_]. *)
Definition run_run (s : vvp_fun_boolean_) : outcome (list action) :=
  match net_ s with
  | Some net => Done [Send_vec4 net (and_result (input_ s))]
  | None => Abort
  end.

End Boolean.

(** ** The buffers, [vvp_fun_buf] and [vvp_fun_bufz] *)

Module Buf.

Definition recv_vec4 (ptr : vvp_net_ptr_t) (bit : vvp_vector4_t) : outcome (list action) :=
  match ptr_port ptr with
  | P0 =>
      let tmp := bit in
      let tmp := change_z2x tmp in
      Done [Send_vec4 (ptr_net ptr) tmp]
  | _ => Done []
  end.

End Buf.

Module Bufz.

Definition recv_vec4 (ptr : vvp_net_ptr_t) (bit : vvp_vector4_t) : outcome (list action) :=
  match ptr_port ptr with
  | P0 => Done [Send_vec4 (ptr_net ptr) bit]
  | _ => Done []
  end.

Definition recv_real (ptr : vvp_net_ptr_t) (bit : float) : outcome (list action) :=
  match ptr_port ptr with
  | P0 => Done [Send_real (ptr_net ptr) bit]
  | _ => Done []
  end.

End Bufz.

(** ** The real multiplexer, [vvp_fun_muxr] *)

Module Muxr.

(** A [double] is a binary64 float; [==] is [PrimFloat.eqb]. *)
Record vvp_fun_muxr : Type := mk { a_ : float; b_ : float; select_ : Z }.

Definition create : vvp_fun_muxr := mk 0%float 0%float 2.

(** The second switch of [recv_vec4]. *)
Definition output (s : vvp_fun_muxr) : float :=
  if (select_ s =? 0)%Z then a_ s
  else if (select_ s =? 1)%Z then b_ s
  else if PrimFloat.eqb (a_ s) (b_ s) then a_ s
  else 0%float.

Definition recv_vec4 (s : vvp_fun_muxr) (ptr : vvp_net_ptr_t) (bit : vvp_vector4_t)
  : outcome (vvp_fun_muxr * list action) :=
  match ptr_port ptr with
  | P2 =>
      if negb (size bit =? 1) then Abort
      else
        let sel := match value bit 0 with
                   | BIT4_0 => 0%Z
                   | BIT4_1 => 1%Z
                   | _ => 2%Z
                   end in
        let s' := mk (a_ s) (b_ s) sel in
        Done (s', [Send_real (ptr_net ptr) (output s')])
  | _ => Done (s, [])
  end.

Definition recv_real (s : vvp_fun_muxr) (ptr : vvp_net_ptr_t) (bit : float)
  : outcome (vvp_fun_muxr * list action) :=
  match ptr_port ptr with
  | P0 =>
      if PrimFloat.eqb (a_ s) bit then Done (s, [])
      else
        let s' := mk bit (b_ s) (select_ s) in
        if (select_ s' =? 0)%Z then Done (s', [Send_real (ptr_net ptr) (a_ s')])
        else Done (s', [])
  | P1 =>
      if PrimFloat.eqb (b_ s) bit then Done (s, [])
      else
        let s' := mk (a_ s) bit (select_ s) in
        if (select_ s' =? 1)%Z then Done (s', [Send_real (ptr_net ptr) (b_ s')])
        else Done (s', [])
  | _ => Abort
  end.

End Muxr.

(** ** Construction: [compile_functor] *)

Module Compile.

Open Scope string_scope.

(** The truth tables named by [compile_functor]; their contents are
    defined elsewhere. *)
Inductive truth_name : Type :=
  ft_OR | ft_MUXX | ft_EEQ | ft_NAND | ft_NOR | ft_NOT | ft_XNOR | ft_XOR.

(** Modelled from the spec: [vvp_delay_t] is declared in delay.h, which is
    not among the sources; the spec speaks of a configured propagation
    delay.  [compile_functor] only tests the pointer and copies the
    object into the delay functor. *)
Definition vvp_delay_t : Type := nat.

(** The functor objects [compile_functor] allocates, with the arguments
    of their constructors. *)
Inductive vvp_net_fun_t : Type :=
| table_functor_s (t : truth_name)
| vvp_fun_and (wid : nat)
| vvp_fun_buf
| vvp_fun_bufif (pol inv : bool) (str0 str1 : nat)
| vvp_fun_bufz
| vvp_fun_muxr
| vvp_fun_muxz (wid : nat)
| vvp_fun_pmos (enable_invert : bool)
| vvp_fun_rpmos (enable_invert : bool)
| vvp_fun_delay (net : net_id) (init : vvp_bit4_t) (d : vvp_delay_t)
| vvp_fun_drive (init : vvp_bit4_t) (str0 str1 : nat).

Record symb_s : Type := mk_symb { text : string; idx : nat }.

(** What the call does to the world outside its locals: the nets it
    allocates, the fields it assigns, and its calls to the routines of
    compile.cc and of the parser, which are not among the sources. *)
Inductive event : Type :=
| Yyerror (msg : string)
| New_net (net : net_id)                         (* new vvp_net_t *)
| Set_fun (net : net_id) (obj : vvp_net_fun_t)   (* net->fun = obj *)
| Inputs_connect (net : net_id) (argc : nat) (argv : list symb_s)
| Set_out (net : net_id) (ptr : vvp_net_ptr_t)   (* net->out = ptr *)
| Define_functor_symbol (label : string) (net : net_id).

(** The chain of [strcmp] tests: the functor object and [strength_aware],
    or nothing when the chain falls through to its last [else]. *)
Definition select_functor (type : string) (width ostr0 ostr1 : nat)
  : option (vvp_net_fun_t * bool) :=
  if type =? "OR" then Some (table_functor_s ft_OR, false)
  else if type =? "AND" then Some (vvp_fun_and width, false)
  else if type =? "BUF" then Some (vvp_fun_buf, false)
  else if type =? "BUFIF0" then Some (vvp_fun_bufif true false ostr0 ostr1, true)
  else if type =? "BUFIF1" then Some (vvp_fun_bufif false false ostr0 ostr1, true)
  else if type =? "NOTIF0" then Some (vvp_fun_bufif true true ostr0 ostr1, true)
  else if type =? "NOTIF1" then Some (vvp_fun_bufif false true ostr0 ostr1, true)
  else if type =? "BUFZ" then Some (vvp_fun_bufz, false)
  else if type =? "MUXR" then Some (vvp_fun_muxr, false)
  else if type =? "MUXX" then Some (table_functor_s ft_MUXX, false)
  else if type =? "MUXZ" then Some (vvp_fun_muxz width, false)
  else if type =? "NMOS" then Some (vvp_fun_pmos true, false)
  else if type =? "PMOS" then Some (vvp_fun_pmos false, false)
  else if type =? "RNMOS" then Some (vvp_fun_rpmos true, false)
  else if type =? "RPMOS" then Some (vvp_fun_rpmos false, false)
  else if type =? "EEQ" then Some (table_functor_s ft_EEQ, false)
  else if type =? "NAND" then Some (table_functor_s ft_NAND, false)
  else if type =? "NOR" then Some (table_functor_s ft_NOR, false)
  else if type =? "NOT" then Some (table_functor_s ft_NOT, false)
  else if type =? "XNOR" then Some (table_functor_s ft_XNOR, false)
  else if type =? "XOR" then Some (table_functor_s ft_XOR, false)
  else None.

Definition is_null {A : Type} (p : option A) : bool :=
  match p with None => true | Some _ => false end.

(** [compile_functor]; [next] is the address the next [new vvp_net_t]
    returns, the one after it being [S next]. *)
Definition compile_functor (next : net_id) (label type : string) (width : nat)
  (delay : option vvp_delay_t) (ostr0 ostr1 : nat)
  (argc : nat) (argv : list symb_s) : outcome (list event) :=
  match select_functor type width ostr0 ostr1 with
  | None => Done [Yyerror "invalid functor type."]
  | Some (obj, strength_aware) =>
      if negb (argc <=? 4)%nat then Abort
      else
        let net := next in
        let made := [New_net net; Set_fun net obj; Inputs_connect net argc argv] in
        if strength_aware || ((ostr0 =? 6)%nat && (ostr1 =? 6)%nat && is_null delay)
        then Done (made ++ [Define_functor_symbol label net])%list
        else
          let net_drv := S next in
          let obj_drv :=
            match delay with
            | Some d =>
                if (ostr0 =? 6)%nat && (ostr1 =? 6)%nat
                then vvp_fun_delay net_drv BIT4_X d
                else vvp_fun_drive BIT4_X ostr0 ostr1
            | None => vvp_fun_drive BIT4_X ostr0 ostr1
            end in
          Done (made ++ [New_net net_drv; Set_fun net_drv obj_drv;
                         Set_out net (mk_ptr net_drv P0);
                         Define_functor_symbol label net_drv])%list
  end.

(** Modelled from the spec: the symbol registry and
    [define_functor_symbol] live in compile.cc, which is not among the
    sources.  The spec: an insertion-ordered mapping from labels to nets,
    used to resolve named references. *)
Definition registry : Type := list (string * net_id).

Fixpoint resolve (reg : registry) (label : string) : option net_id :=
  match reg with
  | [] => None
  | (l, n) :: rest => if l =? label then Some n else resolve rest label
  end.

Fixpoint define_functor_symbol (reg : registry) (label : string) (net : net_id)
  : registry :=
  match reg with
  | [] => [(label, net)]
  | (l, n) :: rest =>
      if l =? label then (l, net) :: rest
      else (l, n) :: define_functor_symbol rest label net
  end.

(** The registry after the events of a call. *)
Definition registry_after (tr : list event) (reg : registry) : registry :=
  fold_left
    (fun reg e =>
       match e with
       | Define_functor_symbol label net => define_functor_symbol reg label net
       | _ => reg
       end) tr reg.

(** The fan-out pointer the events of a call leave in a net, if they
    assign one. *)
Definition out_after (tr : list event) (net : net_id) : option vvp_net_ptr_t :=
  fold_left
    (fun o e =>
       match e with
       | Set_out n p => if Nat.eqb n net then Some p else o
       | _ => o
       end) tr None.

(** The functor object the events of a call attach to a net. *)
Definition fun_after (tr : list event) (net : net_id) : option vvp_net_fun_t :=
  fold_left
    (fun o e =>
       match e with
       | Set_fun n f => if Nat.eqb n net then Some f else o
       | _ => o
       end) tr None.

Definition is_wrapper (f : vvp_net_fun_t) : bool :=
  match f with
  | vvp_fun_delay _ _ _ | vvp_fun_drive _ _ _ => true
  | _ => false
  end.

Definition reported (tr : list event) : bool :=
  existsb (fun e => match e with Yyerror _ => true | _ => false end) tr.

Definition allocates (tr : list event) : bool :=
  existsb (fun e => match e with New_net _ => true | _ => false end) tr.

(** The closed set of gate-type tags. *)
Definition gate_types : list string :=
  ["OR"; "AND"; "BUF"; "BUFIF0"; "BUFIF1"; "NOTIF0"; "NOTIF1"; "BUFZ"; "MUXR";
   "MUXX"; "MUXZ"; "NMOS"; "PMOS"; "RNMOS"; "RPMOS"; "EEQ"; "NAND"; "NOR";
   "NOT"; "XNOR"; "XOR"].

(** The tags of the gates that carry their drive strengths themselves. *)
Definition strength_aware_types : list string :=
  ["BUFIF0"; "BUFIF1"; "NOTIF0"; "NOTIF1"].

End Compile.

(** * Global state of the VHDL code generator (tgt-vhdl/state.cc)

    The four file-scope variables become the fields of [globals]; a
    function that updates them returns the new record, and one that can
    fail an assertion returns an [outcome]. *)

Module VhdlState.

(** Handles of the ivl API and objects of the VHDL syntax tree are
    pointers; a pointer is its address. *)
Definition ivl_signal_t : Type := nat.
Definition ivl_scope_t : Type := nat.
Definition vhdl_scope_ptr : Type := nat.
Definition vhdl_entity_ptr : Type := nat.

(** The accessors [state.cc] calls on those objects; they are defined by
    ivl and by the VHDL syntax classes. *)
Record externals : Type :=
  mk_externals {
    ivl_signal_basename : ivl_signal_t -> string;
    ivl_scope_tname : ivl_scope_t -> string;
    ivl_scope_is_module : ivl_scope_t -> bool;   (* ivl_scope_type(s) == IVL_SCT_MODULE *)
    get_parent : vhdl_scope_ptr -> option vhdl_scope_ptr; (* NULL is None *)
    get_name : vhdl_entity_ptr -> string;
    depth : vhdl_entity_ptr -> Z }.

Record signal_defn_t : Type :=
  mk_defn { renamed : string; scope : option vhdl_scope_ptr }.

(** A [std::map] keyed by pointer: its entries in ascending key order,
    one entry per key. *)
Definition signal_defn_map_t : Type := list (ivl_signal_t * signal_defn_t).

(** [m.find(k)], as the entry's value when it is not [m.end()]. *)
Fixpoint map_find (k : ivl_signal_t) (m : signal_defn_map_t) : option signal_defn_t :=
  match m with
  | [] => None
  | (k', v) :: rest => if Nat.eqb k' k then Some v else map_find k rest
  end.

(** [m[k] = v]. *)
Fixpoint map_set (k : ivl_signal_t) (v : signal_defn_t) (m : signal_defn_map_t)
  : signal_defn_map_t :=
  match m with
  | [] => [(k, v)]
  | (k', v') :: rest =>
      if k <? k' then (k, v) :: m
      else if Nat.eqb k k' then (k, v) :: rest
      else (k', v') :: map_set k v rest
  end.

(** A [std::set] of pointers: its elements in ascending order, each once. *)
Fixpoint set_insert (k : ivl_scope_t) (s : list ivl_scope_t) : list ivl_scope_t :=
  match s with
  | [] => [k]
  | k' :: rest =>
      if k <? k' then k :: s
      else if Nat.eqb k k' then s
      else k' :: set_insert k rest
  end.

(** The keys of a map are strictly ascending. *)
Fixpoint ascending (keys : list nat) : Prop :=
  match keys with
  | [] => True
  | k :: rest => match rest with
                 | [] => True
                 | k' :: _ => k < k'
                 end /\ ascending rest
  end.

Record globals : Type :=
  mk_globals {
    g_entities : list vhdl_entity_ptr;
    g_known_signals : signal_defn_map_t;
    g_active_entity : option vhdl_entity_ptr;
    g_default_scopes : list ivl_scope_t }.

(** The variables as their initializers leave them. *)
Definition initial : globals := mk_globals [] [] None [].

Definition with_known_signals (g : globals) (m : signal_defn_map_t) : globals :=
  mk_globals (g_entities g) m (g_active_entity g) (g_default_scopes g).

Definition with_entities (g : globals) (l : list vhdl_entity_ptr) : globals :=
  mk_globals l (g_known_signals g) (g_active_entity g) (g_default_scopes g).

Definition seen_signal_before (g : globals) (sig : ivl_signal_t) : bool :=
  match map_find sig (g_known_signals g) with
  | Some _ => true
  | None => false
  end.

Definition remember_signal (E : externals) (g : globals) (sig : ivl_signal_t)
  (scope : option vhdl_scope_ptr) : outcome globals :=
  if negb (negb (seen_signal_before g sig)) then Abort
  else
    let defn := mk_defn (ivl_signal_basename E sig) scope in
    Done (with_known_signals g (map_set sig defn (g_known_signals g))).

Definition rename_signal (g : globals) (sig : ivl_signal_t) (renamed' : string)
  : outcome globals :=
  match map_find sig (g_known_signals g) with
  | None => Abort
  | Some defn =>
      Done (with_known_signals g
              (map_set sig (mk_defn renamed' (scope defn)) (g_known_signals g)))
  end.

Definition find_scope_for_signal (g : globals) (sig : ivl_signal_t)
  : option vhdl_scope_ptr :=
  match map_find sig (g_known_signals g) with
  | Some defn => scope defn
  | None => None
  end.

Definition get_renamed_signal (g : globals) (sig : ivl_signal_t) : outcome string :=
  match map_find sig (g_known_signals g) with
  | Some defn => Done (renamed defn)
  | None => Abort
  end.

Definition scope_ptr_eqb (a b : option vhdl_scope_ptr) : bool :=
  match a, b with
  | Some x, Some y => Nat.eqb x y
  | None, None => true
  | _, _ => false
  end.

(** The test of the loop of [find_signal_named] on one entry. *)
Definition names_signal (E : externals) (name : string) (scope' : vhdl_scope_ptr)
  (defn : signal_defn_t) : bool :=
  (scope_ptr_eqb (scope defn) (Some scope')
   || scope_ptr_eqb (scope defn) (get_parent E scope'))
  && String.eqb (renamed defn) name.

Fixpoint find_signal_loop (E : externals) (name : string) (scope' : vhdl_scope_ptr)
  (m : signal_defn_map_t) : outcome ivl_signal_t :=
  match m with
  | [] => Abort                                   (* assert(false) *)
  | (sig, defn) :: rest =>
      if names_signal E name scope' defn then Done sig
      else find_signal_loop E name scope' rest
  end.

Definition find_signal_named (E : externals) (g : globals) (name : string)
  (scope' : vhdl_scope_ptr) : outcome ivl_signal_t :=
  find_signal_loop E name scope' (g_known_signals g).

(** [cmp_ent_name(n)(ent)]. *)
Definition cmp_ent_name (E : externals) (n : string) (ent : vhdl_entity_ptr) : bool :=
  String.eqb (get_name E ent) n.

Definition find_entity (E : externals) (g : globals) (scope' : ivl_scope_t)
  : outcome (option vhdl_entity_ptr) :=
  if negb (ivl_scope_is_module E scope') then Abort
  else Done (find (cmp_ent_name E (ivl_scope_tname E scope')) (g_entities g)).

Definition remember_entity (g : globals) (ent : vhdl_entity_ptr) : globals :=
  with_entities g (g_entities g ++ [ent]).

(** [emit_all_entities]: the entities whose [emit] is called, in the
    order of the calls. *)
Definition emit_all_entities (E : externals) (g : globals) (max_depth : Z)
  : list vhdl_entity_ptr :=
  filter (fun ent => (max_depth =? 0)%Z || (depth E ent <? max_depth)%Z)
         (g_entities g).

Definition free_all_vhdl_objects (g : globals) : globals := with_entities g [].

Definition get_active_entity (g : globals) : option vhdl_entity_ptr :=
  g_active_entity g.

Definition set_active_entity (g : globals) (ent : option vhdl_entity_ptr) : globals :=
  mk_globals (g_entities g) (g_known_signals g) ent (g_default_scopes g).

Definition same_scope_type_name (E : externals) (a b : ivl_scope_t) : bool :=
  String.eqb (ivl_scope_tname E a) (ivl_scope_tname E b).

Definition seen_this_scope_type (E : externals) (g : globals) (s : ivl_scope_t)
  : bool * globals :=
  match find (same_scope_type_name E s) (g_default_scopes g) with
  | None =>
      (false,
       mk_globals (g_entities g) (g_known_signals g) (g_active_entity g)
         (set_insert s (g_default_scopes g)))
  | Some _ => (true, g)
  end.

Definition is_default_scope_instance (g : globals) (s : ivl_scope_t) : bool :=
  match find (Nat.eqb s) (g_default_scopes g) with
  | Some _ => true
  | None => false
  end.

(** The default scopes hold one scope per type name. *)
Definition one_scope_per_type (E : externals) (g : globals) : Prop :=
  NoDup (map (ivl_scope_tname E) (g_default_scopes g)).

End VhdlState.

(** * Properties *)

(** Membership in a literal list, and case analysis on a tag against the
    literals it is compared with. *)
Ltac in_list := simpl; repeat (first [left; reflexivity | right]).

Ltac by_tag type :=
  repeat match goal with
         | |- context [String.eqb type ?c] =>
             destruct (String.eqb_spec type c) as [-> | ?]
         end.

(** ** Vectors and the loops that fill them *)

Lemma size_set_bit (v : vvp_vector4_t) (i : nat) (b : vvp_bit4_t) :
  size (set_bit v i b) = size v.
Proof.
  unfold size. revert i; induction v as [|x v IH]; intros [|i]; simpl; auto.
Qed.

Lemma value_set_bit (v : vvp_vector4_t) (i j : nat) (b : vvp_bit4_t) :
  value (set_bit v i b) j =
  if (j =? i) && (i <? size v) then b else value v j.
Proof.
  unfold value, size.
  revert i j; induction v as [|x v IH]; intros i j.
  - simpl. rewrite andb_false_r. now destruct i.
  - destruct i as [|i], j as [|j]; simpl; try reflexivity.
    rewrite IH. reflexivity.
Qed.

Lemma size_make (wid : nat) : size (make wid) = wid.
Proof. apply repeat_length. Qed.

Lemma value_make (wid i : nat) : value (make wid) i = BIT4_X.
Proof.
  unfold value, make. revert i.
  induction wid as [|w IH]; intros [|i]; simpl; auto.
Qed.

Lemma bit_eqb_eq (a b : vvp_bit4_t) : Bit4.eqb a b = true <-> a = b.
Proof. destruct a, b; simpl; split; congruence. Qed.

Lemma eeq_refl (v : vvp_vector4_t) : eeq v v = true.
Proof.
  induction v as [|x v IH]; simpl; auto.
  rewrite IH, andb_true_r. now apply bit_eqb_eq.
Qed.

Section FillLoop.

(** A loop whose body writes bit [idx] from the bit it finds there. *)
Variable body : nat -> vvp_vector4_t -> vvp_vector4_t.
Variable g : nat -> vvp_bit4_t -> vvp_bit4_t.
Hypothesis body_sets :
  forall idx r, body idx r = set_bit r idx (g idx (value r idx)).

Lemma fill_seq (len lo : nat) (r : vvp_vector4_t) :
  lo + len <= size r ->
  size (fold_left (fun a idx => body idx a) (seq lo len) r) = size r /\
  forall j,
    value (fold_left (fun a idx => body idx a) (seq lo len) r) j =
    if (lo <=? j) && (j <? lo + len) then g j (value r j) else value r j.
Proof.
  revert lo r; induction len as [|len IH]; intros lo r Hle; simpl.
  - split; [reflexivity|]. intro j.
    destruct (lo <=? j) eqn:E1; simpl; auto.
    destruct (j <? lo + 0) eqn:E2; auto.
    apply Nat.leb_le in E1. apply Nat.ltb_lt in E2. lia.
  - rewrite body_sets.
    destruct (IH (S lo) (set_bit r lo (g lo (value r lo)))) as [Hs Hv].
    { rewrite size_set_bit. lia. }
    rewrite size_set_bit in Hs. split; [exact Hs|].
    intro j. rewrite Hv. rewrite !value_set_bit.
    assert (Hlt : (lo <? size r) = true) by (apply Nat.ltb_lt; lia).
    rewrite Hlt, andb_true_r.
    destruct (Nat.eq_dec j lo) as [->|Hne].
    + rewrite Nat.eqb_refl.
      replace (S lo <=? lo) with false by (symmetry; apply Nat.leb_gt; lia).
      replace (lo <=? lo) with true by (symmetry; apply Nat.leb_le; lia).
      replace (lo <? lo + S len) with true by (symmetry; apply Nat.ltb_lt; lia).
      reflexivity.
    + replace (j =? lo) with false by (symmetry; apply Nat.eqb_neq; lia).
      destruct (S lo <=? j) eqn:E1.
      * apply Nat.leb_le in E1.
        replace (lo <=? j) with true by (symmetry; apply Nat.leb_le; lia).
        replace (j <? lo + S len) with (j <? S lo + len)
          by (f_equal; lia).
        reflexivity.
      * apply Nat.leb_gt in E1.
        replace (lo <=? j) with false by (symmetry; apply Nat.leb_gt; lia).
        reflexivity.
Qed.

Lemma fill_loop (lo hi : nat) (r : vvp_vector4_t) :
  lo <= hi -> hi <= size r ->
  size (for_loop lo hi body r) = size r /\
  forall j,
    value (for_loop lo hi body r) j =
    if (lo <=? j) && (j <? hi) then g j (value r j) else value r j.
Proof.
  intros H1 H2. unfold for_loop.
  destruct (fill_seq (hi - lo) lo r) as [Hs Hv]; [lia|].
  split; [exact Hs|]. intro j. rewrite Hv.
  replace (lo + (hi - lo)) with hi by lia. reflexivity.
Qed.

End FillLoop.

(** Two vectors of one width with the same bit at every index are equal. *)
Lemma vector_ext (a b : vvp_vector4_t) :
  size a = size b -> (forall j, j < size a -> value a j = value b j) -> a = b.
Proof.
  revert b; induction a as [|x a IH]; intros [|y b] Hs Hv; simpl in *;
    try discriminate; auto.
  f_equal.
  - apply (Hv 0). lia.
  - apply IH; [unfold size in *; lia|].
    intros j Hj. apply (Hv (S j)). lia.
Qed.

(** ** The vector multiplexer *)

Lemma muxz_sizes (a b : vvp_vector4_t) :
  (if size b <? size a then size b else size a) = Nat.min (size a) (size b) /\
  (if size a <? size b then size b else size a) = Nat.max (size a) (size b).
Proof.
  split.
  - destruct (size b <? size a) eqn:E;
      [apply Nat.ltb_lt in E | apply Nat.ltb_ge in E]; lia.
  - destruct (size a <? size b) eqn:E;
      [apply Nat.ltb_lt in E | apply Nat.ltb_ge in E]; lia.
Qed.

Lemma reconcile_bits (a b : vvp_vector4_t) :
  size (Muxz.reconcile a b) = Nat.max (size a) (size b) /\
  forall i,
    value (Muxz.reconcile a b) i =
    if i <? Nat.min (size a) (size b)
    then (if Bit4.eqb (value a i) (value b i) then value a i else BIT4_X)
    else BIT4_X.
Proof.
  unfold Muxz.reconcile.
  destruct (muxz_sizes a b) as [-> ->].
  set (lo := Nat.min (size a) (size b)).
  set (hi := Nat.max (size a) (size b)).
  set (first := fun (idx : nat) (res : vvp_vector4_t) =>
                  if Bit4.eqb (value a idx) (value b idx)
                  then set_bit res idx (value a idx)
                  else set_bit res idx BIT4_X).
  set (g1 := fun (idx : nat) (_ : vvp_bit4_t) =>
               if Bit4.eqb (value a idx) (value b idx) then value a idx else BIT4_X).
  assert (Hb1 : forall idx r, first idx r = set_bit r idx (g1 idx (value r idx))).
  { intros idx r. unfold first, g1. now destruct (Bit4.eqb _ _). }
  destruct (fill_loop first g1 Hb1 0 lo (make hi)) as [Hs1 Hv1];
    [lia | rewrite size_make; unfold lo, hi; lia |].
  set (g2 := fun (_ : nat) (_ : vvp_bit4_t) => BIT4_X).
  destruct (fill_loop (fun idx res => set_bit res idx BIT4_X) g2
              (fun _ _ => eq_refl) lo hi (for_loop 0 lo first (make hi)))
    as [Hs2 Hv2]; [unfold lo, hi; lia | rewrite Hs1, size_make; lia |].
  split.
  - rewrite Hs2, Hs1. apply size_make.
  - intro i. rewrite Hv2, Hv1. unfold g1, g2. rewrite value_make.
    simpl (0 <=? i). rewrite andb_true_l.
    destruct (i <? lo) eqn:E1.
    + apply Nat.ltb_lt in E1.
      replace (lo <=? i) with false by (symmetry; apply Nat.leb_gt; lia).
      reflexivity.
    + now destruct ((lo <=? i) && (i <? hi)).
Qed.

Lemma muxz_output_cases (s' : Muxz.vvp_fun_muxz) :
  (Muxz.select_ s' = 0%Z -> Muxz.output s' = Muxz.a_ s') /\
  (Muxz.select_ s' = 1%Z -> Muxz.output s' = Muxz.b_ s') /\
  (Muxz.select_ s' <> 0%Z -> Muxz.select_ s' <> 1%Z ->
     size (Muxz.output s') = Nat.max (size (Muxz.a_ s')) (size (Muxz.b_ s')) /\
     (forall i, i < size (Muxz.a_ s') -> i < size (Muxz.b_ s') ->
        value (Muxz.output s') i =
        if Bit4.eqb (value (Muxz.a_ s') i) (value (Muxz.b_ s') i)
        then value (Muxz.a_ s') i else BIT4_X) /\
     (forall i, Nat.min (size (Muxz.a_ s')) (size (Muxz.b_ s')) <= i ->
        i < Nat.max (size (Muxz.a_ s')) (size (Muxz.b_ s')) ->
        value (Muxz.output s') i = BIT4_X)).
Proof.
  destruct s' as [a b sel]; unfold Muxz.output; simpl.
  split; [intros ->; reflexivity|].
  split; [intros ->; reflexivity|].
  intros H0 H1.
  apply Z.eqb_neq in H0, H1. rewrite H0, H1.
  destruct (reconcile_bits a b) as [Hs Hv].
  split; [exact Hs|]. split.
  - intros i Ha Hb. rewrite Hv.
    replace (i <? Nat.min (size a) (size b)) with true
      by (symmetry; apply Nat.ltb_lt; lia).
    reflexivity.
  - intros i Hlo Hhi. rewrite Hv.
    replace (i <? Nat.min (size a) (size b)) with false
      by (symmetry; apply Nat.ltb_ge; lia).
    reflexivity.
Qed.

Lemma muxz_recv_vec4_latches
  (s : Muxz.vvp_fun_muxz) (ptr : vvp_net_ptr_t) (bit : vvp_vector4_t) :
  ptr_port ptr <> P3 ->
  (ptr_port ptr = P2 -> size bit = 1) ->
  exists s',
    Muxz.recv_vec4 s ptr bit =
      Done (s', [Send_vec4 (ptr_net ptr) (Muxz.output s')]) /\
    (ptr_port ptr = P0 -> s' = Muxz.mk bit (Muxz.b_ s) (Muxz.select_ s)) /\
    (ptr_port ptr = P1 -> s' = Muxz.mk (Muxz.a_ s) bit (Muxz.select_ s)) /\
    (ptr_port ptr = P2 ->
       s' = Muxz.mk (Muxz.a_ s) (Muxz.b_ s)
              (match value bit 0 with BIT4_0 => 0 | BIT4_1 => 1 | _ => 2 end)%Z).
Proof.
  intros Hport Hsel.
  unfold Muxz.recv_vec4, Muxz.latch.
  destruct (ptr_port ptr) eqn:Ep.
  - eexists. split; [reflexivity|].
    split; [reflexivity|]. split; discriminate.
  - eexists. split; [reflexivity|].
    split; [discriminate|]. split; [reflexivity | discriminate].
  - rewrite (Hsel eq_refl). simpl negb. cbv iota.
    eexists. split; [reflexivity|].
    split; [discriminate|]. split; [discriminate | reflexivity].
  - now elim Hport.
Qed.

(** C1.  A receive of the vector multiplexer on port 0, 1 or (with a
    vector of width 1) 2 latches the value and sends, within the call, the
    vector chosen by the latched select: the latched A when the select
    is 0, the latched B when it is 1; otherwise a vector as long as the
    longer of A and B whose bit, where both have one, is A's bit if A and
    B agree there and unknown if not, and is unknown beyond the shorter.
    For A=[1,0,1], B=[1,1,1] and an unknown select that is [1,X,1]. *)
Theorem muxz_recv_vec4_selects
  (s : Muxz.vvp_fun_muxz) (ptr : vvp_net_ptr_t) (bit : vvp_vector4_t) :
  ptr_port ptr <> P3 ->
  (ptr_port ptr = P2 -> size bit = 1) ->
  exists s',
    Muxz.recv_vec4 s ptr bit =
      Done (s', [Send_vec4 (ptr_net ptr) (Muxz.output s')]) /\
    (ptr_port ptr = P0 -> s' = Muxz.mk bit (Muxz.b_ s) (Muxz.select_ s)) /\
    (ptr_port ptr = P1 -> s' = Muxz.mk (Muxz.a_ s) bit (Muxz.select_ s)) /\
    (ptr_port ptr = P2 ->
       s' = Muxz.mk (Muxz.a_ s) (Muxz.b_ s)
              (match value bit 0 with BIT4_0 => 0 | BIT4_1 => 1 | _ => 2 end)%Z) /\
    (Muxz.select_ s' = 0%Z -> Muxz.output s' = Muxz.a_ s') /\
    (Muxz.select_ s' = 1%Z -> Muxz.output s' = Muxz.b_ s') /\
    (Muxz.select_ s' <> 0%Z -> Muxz.select_ s' <> 1%Z ->
       size (Muxz.output s') = Nat.max (size (Muxz.a_ s')) (size (Muxz.b_ s')) /\
       (forall i, i < size (Muxz.a_ s') -> i < size (Muxz.b_ s') ->
          value (Muxz.output s') i =
          if Bit4.eqb (value (Muxz.a_ s') i) (value (Muxz.b_ s') i)
          then value (Muxz.a_ s') i else BIT4_X) /\
       (forall i, Nat.min (size (Muxz.a_ s')) (size (Muxz.b_ s')) <= i ->
          i < Nat.max (size (Muxz.a_ s')) (size (Muxz.b_ s')) ->
          value (Muxz.output s') i = BIT4_X)) /\
    Muxz.output (Muxz.mk [BIT4_1; BIT4_0; BIT4_1] [BIT4_1; BIT4_1; BIT4_1] 2)
      = [BIT4_1; BIT4_X; BIT4_1].
Proof.
  intros Hport Hsel.
  destruct (muxz_recv_vec4_latches s ptr bit Hport Hsel) as (s' & Hr & H0 & H1 & H2).
  destruct (muxz_output_cases s') as (A & B & C).
  exists s'. repeat (split; [assumption|]). reflexivity.
Qed.

Lemma muxz_recv_vec4_selects_witness :
  exists s',
    Muxz.recv_vec4 (Muxz.mk [BIT4_1; BIT4_0; BIT4_1] [BIT4_1; BIT4_1; BIT4_1] 0)
      (mk_ptr 0 P2) [BIT4_X]
    = Done (s', [Send_vec4 0 [BIT4_1; BIT4_X; BIT4_1]]).
Proof.
  destruct (muxz_recv_vec4_selects
              (Muxz.mk [BIT4_1; BIT4_0; BIT4_1] [BIT4_1; BIT4_1; BIT4_1] 0)
              (mk_ptr 0 P2) [BIT4_X])
    as (s' & Hr & _ & _ & Hs & _).
  - discriminate.
  - reflexivity.
  - exists s'. rewrite Hr. rewrite (Hs eq_refl). reflexivity.
Defined.

(** ** The AND gate *)

Lemma and_ports3 (i1 i2 i3 : vvp_vector4_t) (idx : nat) (b0 : vvp_bit4_t) :
  Boolean.and_ports [i1; i2; i3] idx b0 =
  if (size i1 <? idx) || (size i2 <? idx) || (size i3 <? idx) then BIT4_X
  else bit4_and (bit4_and (bit4_and b0 (value i1 idx)) (value i2 idx)) (value i3 idx).
Proof.
  simpl.
  destruct (size i1 <? idx), (size i2 <? idx), (size i3 <? idx); reflexivity.
Qed.

Lemma and_result_bits (inp : inputs4) :
  size (Boolean.and_result inp) = size (in0 inp) /\
  forall idx, idx < size (in0 inp) ->
    value (Boolean.and_result inp) idx =
    Boolean.and_ports [in1 inp; in2 inp; in3 inp] idx (value (in0 inp) idx).
Proof.
  unfold Boolean.and_result.
  destruct (fill_loop
              (fun idx result =>
                 set_bit result idx
                   (Boolean.and_ports [in1 inp; in2 inp; in3 inp] idx (value result idx)))
              (fun idx b => Boolean.and_ports [in1 inp; in2 inp; in3 inp] idx b)
              (fun _ _ => eq_refl) 0 (size (in0 inp)) (in0 inp)) as [Hs Hv]; [lia | lia |].
  split; [exact Hs|].
  intros idx Hlt. rewrite Hv.
  replace (idx <? size (in0 inp)) with true by (symmetry; apply Nat.ltb_lt; lia).
  reflexivity.
Qed.

(** C2 as stated fails: with inputs [1,1,1], [1], [0,0,0], [1,1,1] on
    ports 0 to 3, port 2 holds 0 at bit 2, yet the loop leaves at port 1,
    which is narrower than the index, and the result bit is unknown. *)
Lemma and_zero_not_dominant_over_narrow :
  ~ (forall (inp : inputs4) (idx : nat),
       idx < size (Boolean.and_result inp) ->
       ((exists p, value (get_input inp p) idx = BIT4_0) ->
        value (Boolean.and_result inp) idx = BIT4_0) /\
       (~ (exists p, value (get_input inp p) idx = BIT4_0) ->
        (exists p, size (get_input inp p) < idx) \/
        (exists p, is_xz (value (get_input inp p) idx) = true) ->
        value (Boolean.and_result inp) idx = BIT4_X)).
Proof.
  intro H.
  destruct (H (mk_inputs [BIT4_1; BIT4_1; BIT4_1] [BIT4_1]
                 [BIT4_0; BIT4_0; BIT4_0] [BIT4_1; BIT4_1; BIT4_1]) 2) as [Hz _].
  - simpl. lia.
  - assert (E : value (Boolean.and_result
                   (mk_inputs [BIT4_1; BIT4_1; BIT4_1] [BIT4_1]
                      [BIT4_0; BIT4_0; BIT4_0] [BIT4_1; BIT4_1; BIT4_1])) 2 = BIT4_X)
      by reflexivity.
    rewrite E in Hz. discriminate Hz.
    exists P2. reflexivity.
Qed.

(** C2, amended.  [run_run] sends a vector as wide as the input of port 0.
    At a bit index of it: if one of the ports 1 to 3 holds a vector
    narrower than the index, the bit is unknown, whatever the inputs hold
    there; if none does and some input holds 0 at that bit, the bit is 0;
    and if no input holds 0 at that bit while some port is narrower than
    the index or some input is unknown or floating there, the bit is
    unknown. *)
Theorem and_run_run_bits (s : Boolean.vvp_fun_boolean_) (net : net_id) :
  Boolean.net_ s = Some net ->
  exists result,
    Boolean.run_run s = Done [Send_vec4 net result] /\
    size result = size (in0 (Boolean.input_ s)) /\
    forall idx, idx < size result ->
      let inp := Boolean.input_ s in
      ((exists p, p <> P0 /\ size (get_input inp p) < idx) ->
       value result idx = BIT4_X) /\
      ((forall p, p <> P0 -> idx <= size (get_input inp p)) ->
       (exists p, value (get_input inp p) idx = BIT4_0) ->
       value result idx = BIT4_0) /\
      ((forall p, value (get_input inp p) idx <> BIT4_0) ->
       (exists p, size (get_input inp p) < idx) \/
       (exists p, is_xz (value (get_input inp p) idx) = true) ->
       value result idx = BIT4_X).
Proof.
  intros Hnet. unfold Boolean.run_run. rewrite Hnet.
  exists (Boolean.and_result (Boolean.input_ s)).
  destruct (and_result_bits (Boolean.input_ s)) as [Hs Hv].
  split; [reflexivity|]. split; [exact Hs|].
  intros idx Hlt. cbv zeta. rewrite Hs in Hlt.
  rewrite (Hv idx Hlt), and_ports3.
  destruct (Boolean.input_ s) as [i0 i1 i2 i3]; simpl in *.
  split; [|split].
  - intros [p [Hp Hn]]. apply Nat.ltb_lt in Hn.
    destruct p; simpl in Hn; [now elim Hp | | |]; rewrite Hn;
      rewrite ?orb_true_r; reflexivity.
  - intros Hwide [p Hz].
    assert (E1 : (size i1 <? idx) = false)
      by (apply Nat.ltb_ge; apply (Hwide P1); discriminate).
    assert (E2 : (size i2 <? idx) = false)
      by (apply Nat.ltb_ge; apply (Hwide P2); discriminate).
    assert (E3 : (size i3 <? idx) = false)
      by (apply Nat.ltb_ge; apply (Hwide P3); discriminate).
    rewrite E1, E2, E3. simpl orb. cbv iota.
    destruct p; simpl in Hz; rewrite Hz.
    + reflexivity.
    + now destruct (value i0 idx), (value i2 idx), (value i3 idx).
    + now destruct (value i0 idx), (value i1 idx), (value i3 idx).
    + now destruct (value i0 idx), (value i1 idx), (value i2 idx).
  - intros Hnz Hor.
    destruct ((size i1 <? idx) || (size i2 <? idx) || (size i3 <? idx)) eqn:En;
      [reflexivity|].
    apply orb_false_iff in En as [En E3]. apply orb_false_iff in En as [E1 E2].
    apply Nat.ltb_ge in E1, E2, E3.
    pose proof (Hnz P0) as N0. pose proof (Hnz P1) as N1.
    pose proof (Hnz P2) as N2. pose proof (Hnz P3) as N3. simpl in N0, N1, N2, N3.
    destruct Hor as [[p Hn] | [p Hx]].
    + destruct p; simpl in Hn; lia.
    + destruct p; simpl in Hx;
        destruct (value i0 idx), (value i1 idx), (value i2 idx), (value i3 idx);
        simpl in *; congruence.
Qed.

Lemma and_run_run_bits_witness :
  exists result,
    Boolean.run_run
      (Boolean.mk (mk_inputs [BIT4_1; BIT4_0] [BIT4_X; BIT4_X]
                     [BIT4_1; BIT4_1] [BIT4_1; BIT4_Z]) (Some 4))
    = Done [Send_vec4 4 result] /\
    value result 0 = BIT4_X /\ value result 1 = BIT4_0.
Proof.
  destruct (and_run_run_bits
              (Boolean.mk (mk_inputs [BIT4_1; BIT4_0] [BIT4_X; BIT4_X]
                             [BIT4_1; BIT4_1] [BIT4_1; BIT4_Z]) (Some 4)) 4 eq_refl)
    as (result & Hr & Hs & Hb).
  exists result. split; [exact Hr|]. simpl in Hs. split.
  - destruct (Hb 0) as (_ & _ & Hx); [lia|]. apply Hx.
    + intros []; discriminate.
    + right. exists P1. reflexivity.
  - destruct (Hb 1) as (_ & Hz & _); [lia|]. apply Hz.
    + intros [] _; simpl; lia.
    + exists P0. reflexivity.
Defined.

(** ** The table functor *)

Lemma code_range (b : vvp_bit4_t) : (0 <= code b < 4)%Z.
Proof. destruct b; simpl; lia. Qed.

Lemma lookup_at_packed (inp : inputs4) (idx : nat) :
  Table.lookup_at inp idx =
  Table.packed (Table.contribution inp idx P0) (Table.contribution inp idx P1)
               (Table.contribution inp idx P2) (Table.contribution inp idx P3).
Proof.
  unfold Table.lookup_at, Table.lookup_step, Table.contribution, Table.packed.
  cbn [fold_left].
  destruct (idx <? size (get_input inp P3));
    destruct (idx <? size (get_input inp P2));
    destruct (idx <? size (get_input inp P1));
    destruct (idx <? size (get_input inp P0));
    try destruct (value (get_input inp P3) idx);
    try destruct (value (get_input inp P2) idx);
    try destruct (value (get_input inp P1) idx);
    try destruct (value (get_input inp P0) idx);
    reflexivity.
Qed.

Lemma packed_range (c0 c1 c2 c3 : vvp_bit4_t) :
  (0 <= Table.packed c0 c1 c2 c3 < 256)%Z.
Proof.
  unfold Table.packed.
  pose proof (code_range c0). pose proof (code_range c1).
  pose proof (code_range c2). pose proof (code_range c3). lia.
Qed.

Lemma result_of_bits (t : Table.truth_t) (inp : inputs4) (wid : nat) :
  size (Table.result_of t inp wid) = wid /\
  forall idx, idx < wid ->
    value (Table.result_of t inp wid) idx =
    Table.table_bit t (Table.lookup_at inp idx).
Proof.
  unfold Table.result_of.
  destruct (fill_loop
              (fun idx result =>
                 set_bit result idx (Table.table_bit t (Table.lookup_at inp idx)))
              (fun idx _ => Table.table_bit t (Table.lookup_at inp idx))
              (fun _ _ => eq_refl) 0 wid (make wid)) as [Hs Hv];
    [lia | rewrite size_make; lia |].
  rewrite size_make in Hs. split; [exact Hs|].
  intros idx Hlt. rewrite Hv.
  replace (idx <? wid) with true by (symmetry; apply Nat.ltb_lt; lia).
  reflexivity.
Qed.

(** C3 as stated fails: a four-valued OR table whose functor has only
    received [0] on port 0 sends [0]; were the three absent ports to
    contribute unknown, the table entry would be unknown. *)
Lemma table_absent_port_not_unknown :
  ~ (forall (s : Table.table_functor_s) (ptr : vvp_net_ptr_t) (val : vvp_vector4_t)
            (s' : Table.table_functor_s) (result : vvp_vector4_t) (idx : nat),
       Table.recv_vec4 s ptr val = Done (s', [Send_vec4 (ptr_net ptr) result]) ->
       idx < size val ->
       value result idx =
       Table.table_bit (Table.table s)
         (Table.packed (Table.contribution_as_stated (Table.input_ s') idx P0)
                       (Table.contribution_as_stated (Table.input_ s') idx P1)
                       (Table.contribution_as_stated (Table.input_ s') idx P2)
                       (Table.contribution_as_stated (Table.input_ s') idx P3))).
Proof.
  intro H.
  specialize (H (Table.create (Table.gen_table Table.or4)) (mk_ptr 0 P0) [BIT4_0]
                _ _ 0 eq_refl).
  vm_compute in H. specialize (H (le_n 1)). discriminate H.
Qed.

(** C3, amended.  A receive of the table functor latches the vector and,
    for every bit position of it, packs the four ports' bits at that
    position two bits each into an index in 0..255, a port whose latched
    vector is absent or narrower than the position contributing the code
    of 0; the two-bit table entry of that index is the bit of the result
    at that position, and the result is sent within the same call. *)
Theorem table_recv_vec4_lookup
  (s : Table.table_functor_s) (ptr : vvp_net_ptr_t) (val : vvp_vector4_t) :
  exists result,
    Table.recv_vec4 s ptr val =
      Done (Table.mk (Table.table s) (set_input (Table.input_ s) (ptr_port ptr) val),
            [Send_vec4 (ptr_net ptr) result]) /\
    size result = size val /\
    forall idx, idx < size val ->
      let inp := set_input (Table.input_ s) (ptr_port ptr) val in
      (0 <= Table.lookup_at inp idx < 256)%Z /\
      Table.lookup_at inp idx =
        Table.packed (Table.contribution inp idx P0) (Table.contribution inp idx P1)
                     (Table.contribution inp idx P2) (Table.contribution inp idx P3) /\
      value result idx = Table.table_bit (Table.table s) (Table.lookup_at inp idx).
Proof.
  unfold Table.recv_vec4.
  destruct (result_of_bits (Table.table s)
              (set_input (Table.input_ s) (ptr_port ptr) val) (size val)) as [Hs Hv].
  eexists. split; [reflexivity|]. split; [exact Hs|].
  intros idx Hlt. cbv zeta.
  split; [rewrite lookup_at_packed; apply packed_range|].
  split; [apply lookup_at_packed|]. apply Hv, Hlt.
Qed.

Lemma table_recv_vec4_lookup_witness :
  exists s' result,
    Table.recv_vec4 (Table.mk (Table.gen_table Table.or4)
                       (mk_inputs [] [BIT4_X; BIT4_1] [] []))
      (mk_ptr 3 P0) [BIT4_0; BIT4_0] = Done (s', [Send_vec4 3 result]) /\
    value result 1 = BIT4_1.
Proof.
  destruct (table_recv_vec4_lookup
              (Table.mk (Table.gen_table Table.or4) (mk_inputs [] [BIT4_X; BIT4_1] [] []))
              (mk_ptr 3 P0) [BIT4_0; BIT4_0]) as (result & Hr & _ & Hb).
  exists (Table.mk (Table.gen_table Table.or4)
            (mk_inputs [BIT4_0; BIT4_0] [BIT4_X; BIT4_1] [] [])), result.
  split; [exact Hr|].
  destruct (Hb 1) as (_ & _ & Hv); [simpl; lia|].
  rewrite Hv. vm_compute. reflexivity.
Defined.

Lemma firstn_agree (n idx : nat) (a b : vvp_vector4_t) :
  firstn n a = firstn n b -> idx < n ->
  (idx <? size a) = (idx <? size b) /\ value a idx = value b idx.
Proof.
  unfold size, value.
  revert idx a b; induction n as [|n IH]; intros idx a b Hf Hlt; [lia|].
  destruct a as [|x a], b as [|y b]; simpl in Hf; try discriminate; auto.
  injection Hf as -> Hf.
  destruct idx as [|idx]; [auto|].
  destruct (IH idx a b Hf) as [H1 H2]; [lia|].
  simpl. split; [exact H1 | exact H2].
Qed.

Lemma get_set_input (inp : inputs4) (p q : port_t) (v : vvp_vector4_t) :
  get_input (set_input inp p v) q =
  if Nat.eqb (port_index q) (port_index p) then v else get_input inp q.
Proof. destruct p, q; reflexivity. Qed.

Lemma lookup_at_agree (n idx : nat) (i1 i2 : inputs4) :
  (forall p, firstn n (get_input i1 p) = firstn n (get_input i2 p)) ->
  idx < n -> Table.lookup_at i1 idx = Table.lookup_at i2 idx.
Proof.
  intros Hf Hlt. rewrite !lookup_at_packed. unfold Table.contribution.
  destruct (firstn_agree n idx _ _ (Hf P0) Hlt) as [-> ->].
  destruct (firstn_agree n idx _ _ (Hf P1) Hlt) as [-> ->].
  destruct (firstn_agree n idx _ _ (Hf P2) Hlt) as [-> ->].
  destruct (firstn_agree n idx _ _ (Hf P3) Hlt) as [-> ->].
  reflexivity.
Qed.

(** C10.  The vector a receive of the table functor sends is exactly as
    wide as the vector just received, whatever the other latched inputs
    are (the functor keeps no width of its own): two functors with one
    table whose inputs latched on the other ports agree below that width
    send the same vector, so bits of wider latched inputs at or beyond it
    play no part. *)
Theorem table_recv_vec4_width
  (t : Table.truth_t) (i1 i2 : inputs4) (ptr : vvp_net_ptr_t) (val : vvp_vector4_t) :
  (forall p, p <> ptr_port ptr ->
     firstn (size val) (get_input i1 p) = firstn (size val) (get_input i2 p)) ->
  exists result,
    Table.sent (Table.recv_vec4 (Table.mk t i1) ptr val) = Some result /\
    Table.sent (Table.recv_vec4 (Table.mk t i2) ptr val) = Some result /\
    size result = size val.
Proof.
  intros Hf. unfold Table.recv_vec4. simpl.
  destruct (result_of_bits t (set_input i1 (ptr_port ptr) val) (size val)) as [Hs1 Hv1].
  destruct (result_of_bits t (set_input i2 (ptr_port ptr) val) (size val)) as [Hs2 Hv2].
  eexists. split; [reflexivity|]. split; [|exact Hs1].
  f_equal. apply vector_ext; [congruence|].
  intros j Hj. rewrite Hs2 in Hj. rewrite Hv1, Hv2 by exact Hj.
  f_equal. symmetry. apply (lookup_at_agree (size val)); [|exact Hj].
  intro p. rewrite !get_set_input.
  destruct (Nat.eqb (port_index p) (port_index (ptr_port ptr))) eqn:E; [reflexivity|].
  apply Hf. intros ->. rewrite Nat.eqb_refl in E. discriminate E.
Qed.

Lemma table_recv_vec4_width_witness :
  exists result,
    Table.sent (Table.recv_vec4
                  (Table.mk (Table.gen_table Table.or4)
                     (mk_inputs [] [BIT4_0; BIT4_1; BIT4_1] [BIT4_0] []))
                  (mk_ptr 0 P0) [BIT4_0]) = Some result /\
    Table.sent (Table.recv_vec4
                  (Table.mk (Table.gen_table Table.or4)
                     (mk_inputs [BIT4_1] [BIT4_0] [BIT4_0; BIT4_X] []))
                  (mk_ptr 0 P0) [BIT4_0]) = Some result /\
    size result = 1.
Proof.
  apply (table_recv_vec4_width (Table.gen_table Table.or4)
           (mk_inputs [] [BIT4_0; BIT4_1; BIT4_1] [BIT4_0] [])
           (mk_inputs [BIT4_1] [BIT4_0] [BIT4_0; BIT4_X] [])
           (mk_ptr 0 P0) [BIT4_0]).
  intros [] Hp; try reflexivity. now elim Hp.
Defined.

(** ** Deferred and immediate propagation *)

(** C6.  The receive of the AND gate sends nothing: for a vector that
    differs from the one latched on the port it latches it, remembers the
    net and only asks the scheduler for a generic event at delay 0; the
    recomputed vector is sent when the scheduler calls [run_run].  No
    receive of the gate makes any other call. *)
Theorem and_recv_vec4_defers
  (s : Boolean.vvp_fun_boolean_) (ptr : vvp_net_ptr_t) (bit : vvp_vector4_t) :
  eeq (get_input (Boolean.input_ s) (ptr_port ptr)) bit = false ->
  exists s',
    Boolean.recv_vec4 s ptr bit = Done (s', [Schedule_generic 0 false]) /\
    Boolean.input_ s' = set_input (Boolean.input_ s) (ptr_port ptr) bit /\
    Boolean.run_run s' =
      Done [Send_vec4 (ptr_net ptr) (Boolean.and_result (Boolean.input_ s'))] /\
    forall bit' s'' acts a,
      Boolean.recv_vec4 s ptr bit' = Done (s'', acts) ->
      In a acts -> a = Schedule_generic 0 false.
Proof.
  intros Hne. unfold Boolean.recv_vec4. rewrite Hne.
  eexists. split; [reflexivity|]. split; [reflexivity|]. split; [reflexivity|].
  intros bit' s'' acts a Hr.
  destruct (eeq (get_input (Boolean.input_ s) (ptr_port ptr)) bit');
    injection Hr as _ <-; simpl; intuition congruence.
Qed.

Lemma and_recv_vec4_defers_witness :
  exists s',
    Boolean.recv_vec4 (Boolean.create 1) (mk_ptr 2 P1) [BIT4_1]
      = Done (s', [Schedule_generic 0 false]) /\
    Boolean.run_run s' = Done [Send_vec4 2 [BIT4_X]].
Proof.
  destruct (and_recv_vec4_defers (Boolean.create 1) (mk_ptr 2 P1) [BIT4_1] eq_refl)
    as (s' & Hr & Hi & Hrun & _).
  exists s'. split; [exact Hr|]. rewrite Hrun, Hi. reflexivity.
Defined.

(** C9 as stated fails: a table functor that receives the same vector
    twice on a port computes the same result twice and sends it twice. *)
Lemma table_resends_equal_result :
  ~ (forall (s s1 s2 : Table.table_functor_s) (ptr ptr' : vvp_net_ptr_t)
            (val val' last : vvp_vector4_t) (acts : list action),
       Table.recv_vec4 s ptr val = Done (s1, [Send_vec4 (ptr_net ptr) last]) ->
       Table.recv_vec4 s1 ptr' val' = Done (s2, acts) ->
       eeq (Table.result_of (Table.table s1)
              (set_input (Table.input_ s1) (ptr_port ptr') val') (size val'))
           last = true ->
       acts = []).
Proof.
  intro H.
  specialize (H (Table.create (Table.gen_table Table.or4)) _ _
                (mk_ptr 0 P0) (mk_ptr 0 P0) [BIT4_1] [BIT4_1] _ _ eq_refl eq_refl).
  vm_compute in H. specialize (H eq_refl). discriminate H.
Qed.

(** C9, amended.  The AND gate suppresses a receive whose vector is
    structurally equal to the vector latched on that port: nothing is
    latched, sent or scheduled.  The test is on the input, not on the
    result: a vector that differs is scheduled whatever result it leads
    to.  The table functor sends its result on every receive. *)
Theorem redundant_input_suppressed
  (s : Boolean.vvp_fun_boolean_) (ptr : vvp_net_ptr_t) (bit : vvp_vector4_t) :
  (eeq (get_input (Boolean.input_ s) (ptr_port ptr)) bit = true ->
   Boolean.recv_vec4 s ptr bit = Done (s, [])) /\
  (eeq (get_input (Boolean.input_ s) (ptr_port ptr)) bit = false ->
   Boolean.recv_vec4 s ptr bit =
     Done (Boolean.mk (set_input (Boolean.input_ s) (ptr_port ptr) bit)
             (Some (ptr_net ptr)),
           [Schedule_generic 0 false])) /\
  (forall t : Table.table_functor_s,
     Table.recv_vec4 t ptr bit =
       Done (Table.mk (Table.table t) (set_input (Table.input_ t) (ptr_port ptr) bit),
             [Send_vec4 (ptr_net ptr)
                (Table.result_of (Table.table t)
                   (set_input (Table.input_ t) (ptr_port ptr) bit) (size bit))])).
Proof.
  unfold Boolean.recv_vec4.
  split; [intros ->; reflexivity|].
  split; [intros ->; reflexivity|].
  reflexivity.
Qed.

Lemma redundant_input_suppressed_witness :
  Boolean.recv_vec4 (Boolean.create 2) (mk_ptr 5 P3) [BIT4_X; BIT4_X]
    = Done (Boolean.create 2, []) /\
  Boolean.recv_vec4
    (Boolean.mk (mk_inputs [BIT4_0] [BIT4_1] [BIT4_1] [BIT4_1]) (Some 5))
    (mk_ptr 5 P1) [BIT4_X]
    = Done (Boolean.mk (mk_inputs [BIT4_0] [BIT4_X] [BIT4_1] [BIT4_1]) (Some 5),
            [Schedule_generic 0 false]).
Proof.
  split.
  - apply (redundant_input_suppressed (Boolean.create 2) (mk_ptr 5 P3)
             [BIT4_X; BIT4_X]). reflexivity.
  - apply (redundant_input_suppressed
             (Boolean.mk (mk_inputs [BIT4_0] [BIT4_1] [BIT4_1] [BIT4_1]) (Some 5))
             (mk_ptr 5 P1) [BIT4_X]). reflexivity.
Defined.

(** ** Ports outside the arity *)

(** C5 as stated fails: a buffer that receives on port 1 returns; it does
    not abort. *)
Lemma buf_foreign_port_returns :
  ~ ((forall ptr bit, ptr_port ptr <> P0 -> Buf.recv_vec4 ptr bit = Abort) /\
     (forall s ptr bit, ptr_port ptr = P3 -> Muxz.recv_vec4 s ptr bit = Abort) /\
     (forall s ptr bit, ptr_port ptr <> P0 -> ptr_port ptr <> P1 ->
        Muxr.recv_real s ptr bit = Abort)).
Proof.
  intros [H _].
  specialize (H (mk_ptr 0 P1) [BIT4_1]).
  simpl in H. discriminate H. discriminate.
Qed.

(** C5, amended.  Only the real-valued receive of the real multiplexer
    aborts on a port outside its arity (a port other than 0 and 1).  The
    buffers on a port other than 0, the vector multiplexer on port 3 and
    the vector receive of the real multiplexer on a port other than 2
    return at once: nothing is sent and the members are unchanged. *)
Theorem foreign_port_receives (ptr : vvp_net_ptr_t) :
  (ptr_port ptr <> P0 ->
   (forall bit, Buf.recv_vec4 ptr bit = Done []) /\
   (forall bit, Bufz.recv_vec4 ptr bit = Done []) /\
   (forall r, Bufz.recv_real ptr r = Done [])) /\
  (ptr_port ptr = P3 ->
   forall s bit, Muxz.recv_vec4 s ptr bit = Done (s, [])) /\
  (ptr_port ptr <> P2 ->
   forall s bit, Muxr.recv_vec4 s ptr bit = Done (s, [])) /\
  (ptr_port ptr <> P0 -> ptr_port ptr <> P1 ->
   forall s r, Muxr.recv_real s ptr r = Abort).
Proof.
  unfold Buf.recv_vec4, Bufz.recv_vec4, Bufz.recv_real, Muxz.recv_vec4,
    Muxz.latch, Muxr.recv_vec4, Muxr.recv_real.
  destruct (ptr_port ptr); repeat split; intros; try reflexivity;
    try discriminate; congruence.
Qed.

Lemma foreign_port_receives_witness :
  Buf.recv_vec4 (mk_ptr 0 P1) [BIT4_1] = Done [] /\
  Muxz.recv_vec4 (Muxz.create 1) (mk_ptr 0 P3) [BIT4_1] = Done (Muxz.create 1, []) /\
  Muxr.recv_real Muxr.create (mk_ptr 0 P2) 1%float = Abort.
Proof.
  destruct (foreign_port_receives (mk_ptr 0 P1)) as (Hb & _).
  destruct (foreign_port_receives (mk_ptr 0 P3)) as (_ & Hz & _).
  destruct (foreign_port_receives (mk_ptr 0 P2)) as (_ & _ & _ & Hr).
  split; [apply Hb; discriminate|].
  split; [apply Hz; reflexivity|].
  apply Hr; discriminate.
Defined.

(** ** The multiplexers *)

(** C7 as stated fails: a real multiplexer whose select is 1 latches a
    new value of data A and sends nothing. *)
Lemma muxr_unselected_change_silent :
  ~ ((forall s ptr bit, ptr_port ptr <> P3 -> (ptr_port ptr = P2 -> size bit = 1) ->
        exists s', Muxz.recv_vec4 s ptr bit
                   = Done (s', [Send_vec4 (ptr_net ptr) (Muxz.output s')])) /\
     (forall s ptr r, ptr_port ptr = P0 -> PrimFloat.eqb (Muxr.a_ s) r = false ->
        exists s', Muxr.recv_real s ptr r
                   = Done (s', [Send_real (ptr_net ptr) (Muxr.output s')])) /\
     (forall s ptr r, ptr_port ptr = P1 -> PrimFloat.eqb (Muxr.b_ s) r = false ->
        exists s', Muxr.recv_real s ptr r
                   = Done (s', [Send_real (ptr_net ptr) (Muxr.output s')]))).
Proof.
  intros (_ & H & _).
  destruct (H (Muxr.mk 0%float 0%float 1) (mk_ptr 0 P0) 1.5%float eq_refl eq_refl)
    as [s' Hs'].
  vm_compute in Hs'. discriminate Hs'.
Qed.

(** C7, amended.  The vector multiplexer recomputes and sends within the
    call on every receive on ports 0 to 2.  The real multiplexer does so
    on every receive of a select (port 2, width 1); a changed data A is
    sent within the call when the select is 0 and a changed data B when
    it is 1, while a change of the data input that the select has not
    chosen (A under select 1, B under select 0) is latched and nothing is
    sent. *)
Theorem mux_receives_propagate (ptr : vvp_net_ptr_t) :
  (ptr_port ptr <> P3 ->
   forall s bit, (ptr_port ptr = P2 -> size bit = 1) ->
     exists s', Muxz.recv_vec4 s ptr bit
                = Done (s', [Send_vec4 (ptr_net ptr) (Muxz.output s')])) /\
  (ptr_port ptr = P2 ->
   forall s bit, size bit = 1 ->
     exists s', Muxr.recv_vec4 s ptr bit
                = Done (s', [Send_real (ptr_net ptr) (Muxr.output s')])) /\
  (ptr_port ptr = P0 ->
   forall s r, PrimFloat.eqb (Muxr.a_ s) r = false ->
     (Muxr.select_ s = 0%Z ->
      Muxr.recv_real s ptr r
      = Done (Muxr.mk r (Muxr.b_ s) 0, [Send_real (ptr_net ptr) r]) /\
      Muxr.output (Muxr.mk r (Muxr.b_ s) 0) = r) /\
     (Muxr.select_ s = 1%Z ->
      Muxr.recv_real s ptr r = Done (Muxr.mk r (Muxr.b_ s) 1, []))) /\
  (ptr_port ptr = P1 ->
   forall s r, PrimFloat.eqb (Muxr.b_ s) r = false ->
     (Muxr.select_ s = 1%Z ->
      Muxr.recv_real s ptr r
      = Done (Muxr.mk (Muxr.a_ s) r 1, [Send_real (ptr_net ptr) r]) /\
      Muxr.output (Muxr.mk (Muxr.a_ s) r 1) = r) /\
     (Muxr.select_ s = 0%Z ->
      Muxr.recv_real s ptr r = Done (Muxr.mk (Muxr.a_ s) r 0, []))).
Proof.
  split; [|split; [|split]].
  - intros Hp s bit Hsel.
    destruct (muxz_recv_vec4_latches s ptr bit Hp Hsel) as (s' & Hr & _).
    exists s'. exact Hr.
  - intros Hp s bit Hs. unfold Muxr.recv_vec4. rewrite Hp, Hs. simpl negb. cbv iota.
    eexists. reflexivity.
  - intros Hp [a b sel] r Hne. unfold Muxr.recv_real. rewrite Hp. simpl in *.
    rewrite Hne. split; intros ->; simpl; auto.
  - intros Hp [a b sel] r Hne. unfold Muxr.recv_real. rewrite Hp. simpl in *.
    rewrite Hne. split; intros ->; simpl; auto.
Qed.

Lemma mux_receives_propagate_witness :
  Muxr.recv_real (Muxr.mk 0%float 2%float 0) (mk_ptr 1 P0) 1.5%float
    = Done (Muxr.mk 1.5%float 2%float 0, [Send_real 1 1.5%float]) /\
  Muxr.recv_real (Muxr.mk 0%float 2%float 0) (mk_ptr 1 P1) 1.5%float
    = Done (Muxr.mk 0%float 1.5%float 0, []) /\
  (exists s', Muxr.recv_vec4 (Muxr.mk 0%float 2%float 0) (mk_ptr 1 P2) [BIT4_1]
              = Done (s', [Send_real 1 (Muxr.output s')])) /\
  (exists s', Muxz.recv_vec4 (Muxz.create 2) (mk_ptr 1 P0) [BIT4_1; BIT4_0]
              = Done (s', [Send_vec4 1 (Muxz.output s')])).
Proof.
  destruct (mux_receives_propagate (mk_ptr 1 P0)) as (Hz & _ & Ha & _).
  destruct (mux_receives_propagate (mk_ptr 1 P1)) as (_ & _ & _ & Hb).
  destruct (mux_receives_propagate (mk_ptr 1 P2)) as (_ & Hs & _).
  split; [|split; [|split]].
  - apply (Ha eq_refl (Muxr.mk 0%float 2%float 0) 1.5%float); reflexivity.
  - apply (Hb eq_refl (Muxr.mk 0%float 2%float 0) 1.5%float); reflexivity.
  - apply (Hs eq_refl (Muxr.mk 0%float 2%float 0) [BIT4_1]); reflexivity.
  - apply Hz; [discriminate | discriminate].
Defined.

(** ** Construction *)

Lemma select_functor_known (type : string) (width ostr0 ostr1 : nat) :
  Compile.select_functor type width ostr0 ostr1 = None <->
  ~ In type Compile.gate_types.
Proof.
  unfold Compile.select_functor, Compile.gate_types.
  by_tag type;
    try (split; [discriminate | intro H; exfalso; apply H; in_list]).
  split; [|reflexivity].
  intros _ H. simpl in H. intuition congruence.
Qed.

Lemma select_functor_strength (type : string) (width ostr0 ostr1 : nat)
  (obj : Compile.vvp_net_fun_t) (sa : bool) :
  Compile.select_functor type width ostr0 ostr1 = Some (obj, sa) ->
  (sa = true <-> In type Compile.strength_aware_types).
Proof.
  unfold Compile.select_functor, Compile.strength_aware_types.
  by_tag type; intro H; try discriminate H; injection H as _ <-;
    (split; [first [discriminate | intros _; in_list]
            | first [reflexivity | intro K; simpl in K; intuition discriminate]]).
Qed.

Lemma resolve_define (reg : Compile.registry) (label : string) (net : net_id) :
  Compile.resolve (Compile.define_functor_symbol reg label net) label = Some net.
Proof.
  induction reg as [|[l n] reg IH]; simpl.
  - now rewrite String.eqb_refl.
  - destruct (String.eqb l label) eqn:E; simpl; rewrite E; auto.
Qed.

Lemma succ_eqb (n : nat) : Nat.eqb (S n) n = false.
Proof. apply Nat.eqb_neq. lia. Qed.

Lemma eqb_succ (n : nat) : Nat.eqb n (S n) = false.
Proof. apply Nat.eqb_neq. lia. Qed.

(** C4 as stated fails: a BUFIF0 built with strength 5 for driving 0 gets
    no resolver and no delay functor; its label is bound to the gate's own
    net. *)
Lemma strength_aware_gate_unwrapped :
  ~ (forall next label type width delay ostr0 ostr1 argc argv tr reg,
       Compile.compile_functor next label type width delay ostr0 ostr1 argc argv
         = Done tr ->
       Compile.allocates tr = true ->
       (ostr0 <> 6 \/ ostr1 <> 6 \/ delay <> None ->
        exists net_drv wrapper,
          Compile.fun_after tr net_drv = Some wrapper /\
          Compile.is_wrapper wrapper = true /\
          Compile.out_after tr next = Some (mk_ptr net_drv P0) /\
          Compile.resolve (Compile.registry_after tr reg) label = Some net_drv) /\
       (ostr0 = 6 -> ostr1 = 6 -> delay = None ->
        Compile.resolve (Compile.registry_after tr reg) label = Some next)).
Proof.
  intro H.
  destruct (H 7 "out"%string "BUFIF0"%string 1 None 5 6 2 [] _ [] eq_refl eq_refl)
    as [Hw _].
  destruct Hw as (net_drv & wrapper & _ & _ & Hout & _); [left; discriminate|].
  vm_compute in Hout. discriminate Hout.
Qed.

(** The events of a successful call, by the test that guards the
    wrapper. *)
Lemma compile_functor_cases
  (next : net_id) (label type : string) (width : nat)
  (delay : option Compile.vvp_delay_t) (ostr0 ostr1 argc : nat)
  (argv : list Compile.symb_s) (obj : Compile.vvp_net_fun_t) (sa : bool)
  (reg : Compile.registry) :
  Compile.select_functor type width ostr0 ostr1 = Some (obj, sa) ->
  argc <= 4 ->
  exists tr,
    Compile.compile_functor next label type width delay ostr0 ostr1 argc argv
      = Done tr /\
    Compile.fun_after tr next = Some obj /\
    (sa = true <-> In type Compile.strength_aware_types) /\
    (sa = true \/ (ostr0 = 6 /\ ostr1 = 6 /\ delay = None) ->
     Compile.resolve (Compile.registry_after tr reg) label = Some next /\
     Compile.out_after tr next = None /\
     Compile.fun_after tr (S next) = None) /\
    (sa = false -> ostr0 <> 6 \/ ostr1 <> 6 \/ delay <> None ->
     Compile.resolve (Compile.registry_after tr reg) label = Some (S next) /\
     Compile.out_after tr next = Some (mk_ptr (S next) P0) /\
     exists wrapper,
       Compile.fun_after tr (S next) = Some wrapper /\
       Compile.is_wrapper wrapper = true /\
       (ostr0 = 6 -> ostr1 = 6 ->
        exists d, delay = Some d /\ wrapper = Compile.vvp_fun_delay (S next) BIT4_X d) /\
       (ostr0 <> 6 \/ ostr1 <> 6 ->
        wrapper = Compile.vvp_fun_drive BIT4_X ostr0 ostr1)).
Proof.
  intros Hsel Hargc.
  pose proof (select_functor_strength _ _ _ _ _ _ Hsel) as Hsa.
  unfold Compile.compile_functor. rewrite Hsel.
  replace (argc <=? 4) with true by (symmetry; apply Nat.leb_le; exact Hargc).
  simpl negb. cbv iota zeta.
  destruct sa; simpl orb; cbv iota.
  - eexists. split; [reflexivity|].
    unfold Compile.fun_after, Compile.out_after, Compile.registry_after.
    cbn -[Nat.eqb].
    rewrite ?Nat.eqb_refl, ?succ_eqb, ?eqb_succ, ?resolve_define.
    split; [reflexivity|]. split; [exact Hsa|].
    split; [intros _; auto | discriminate].
  - destruct (Nat.eqb_spec ostr0 6) as [E0|E0], (Nat.eqb_spec ostr1 6) as [E1|E1],
      delay as [d|]; simpl andb; cbv iota;
      (eexists; split; [reflexivity|]);
      unfold Compile.fun_after, Compile.out_after, Compile.registry_after;
      cbn -[Nat.eqb];
      rewrite ?Nat.eqb_refl, ?succ_eqb, ?eqb_succ, ?resolve_define;
      (split; [reflexivity|]); (split; [exact Hsa|]).
    all: split;
      [ intros [K | (K0 & K1 & K2)]; first [discriminate | congruence | auto]
      | intros _ Hor ].
    all: try (exfalso; destruct Hor as [K | [K | K]]; congruence).
    all: split; [reflexivity|]; split; [reflexivity|];
      eexists; split; [reflexivity|]; split; [reflexivity|];
      split; [ intros K0 K1; first [congruence | eexists; split; reflexivity]
             | intros [K | K]; first [congruence | reflexivity] ].
Qed.

(** C4, amended.  For a gate that is not strength-aware (any tag but
    BUFIF0, BUFIF1, NOTIF0 and NOTIF1) built without error: when either
    strength differs from 6 or a delay is given, a second net is
    allocated whose functor is a drive-strength functor or a delay
    functor (a delay functor when both strengths are 6, a drive-strength
    functor when a strength differs and no delay is given), the gate's
    net points to port 0 of it, and the label resolves to it; when both
    strengths are 6 and no delay is given, the label resolves to the
    gate's net.  The label of a strength-aware gate built without a
    delay resolves to the gate's net, whatever the strengths. *)
Theorem compile_functor_wrapper
  (next : net_id) (label type : string) (width : nat)
  (delay : option Compile.vvp_delay_t) (ostr0 ostr1 argc : nat)
  (argv : list Compile.symb_s) (obj : Compile.vvp_net_fun_t) (sa : bool)
  (reg : Compile.registry) :
  Compile.select_functor type width ostr0 ostr1 = Some (obj, sa) ->
  argc <= 4 ->
  exists tr,
    Compile.compile_functor next label type width delay ostr0 ostr1 argc argv
      = Done tr /\
    Compile.fun_after tr next = Some obj /\
    (sa = true <-> In type Compile.strength_aware_types) /\
    (sa = true \/ (ostr0 = 6 /\ ostr1 = 6) -> delay = None ->
     Compile.resolve (Compile.registry_after tr reg) label = Some next /\
     Compile.out_after tr next = None /\
     Compile.fun_after tr (S next) = None) /\
    (sa = false -> ostr0 <> 6 \/ ostr1 <> 6 \/ delay <> None ->
     Compile.resolve (Compile.registry_after tr reg) label = Some (S next) /\
     Compile.out_after tr next = Some (mk_ptr (S next) P0) /\
     exists wrapper,
       Compile.fun_after tr (S next) = Some wrapper /\
       Compile.is_wrapper wrapper = true /\
       (ostr0 = 6 -> ostr1 = 6 ->
        exists d, delay = Some d /\ wrapper = Compile.vvp_fun_delay (S next) BIT4_X d) /\
       (ostr0 <> 6 \/ ostr1 <> 6 -> delay = None ->
        wrapper = Compile.vvp_fun_drive BIT4_X ostr0 ostr1)).
Proof.
  intros Hsel Hargc.
  destruct (compile_functor_cases next label type width delay ostr0 ostr1 argc argv
              obj sa reg Hsel Hargc) as (tr & Hr & Hobj & Hsa & Hdirect & Hwrap).
  exists tr. split; [exact Hr|]. split; [exact Hobj|]. split; [exact Hsa|].
  split.
  - intros Hc Hd. apply Hdirect.
    destruct Hc as [Hc | [H0 H1]]; [left; exact Hc | right; auto].
  - intros Hf Hor.
    destruct (Hwrap Hf Hor) as (Hres & Hout & wrapper & Hw & Hiw & Hdel & Hdrv).
    split; [exact Hres|]. split; [exact Hout|].
    exists wrapper. split; [exact Hw|]. split; [exact Hiw|].
    split; [exact Hdel|]. intros Hne _. exact (Hdrv Hne).
Qed.

Lemma compile_functor_wrapper_witness :
  exists tr,
    Compile.compile_functor 7 "out"%string "AND"%string 1 (Some 3) 6 6 2 [] = Done tr /\
    Compile.resolve (Compile.registry_after tr []) "out"%string = Some 8 /\
    Compile.out_after tr 7 = Some (mk_ptr 8 P0) /\
    Compile.fun_after tr 8 = Some (Compile.vvp_fun_delay 8 BIT4_X 3).
Proof.
  destruct (compile_functor_wrapper 7 "out"%string "AND"%string 1 (Some 3) 6 6 2 []
              (Compile.vvp_fun_and 1) false [] eq_refl)
    as (tr & Hr & _ & _ & _ & Hw); [lia|].
  destruct Hw as (H1 & H2 & wrapper & H3 & _ & H4 & _);
    [reflexivity | right; right; discriminate |].
  destruct H4 as (d & Hd & ->); [reflexivity | reflexivity |].
  injection Hd as <-.
  exists tr. repeat split; assumption.
Defined.

(** C8 as stated fails: an AND with five input references is a
    construction error, yet the call does not return: the assertion on
    the number of arguments aborts the process. *)
Lemma too_many_inputs_aborts :
  ~ (forall next label type width delay ostr0 ostr1 argc argv,
       ~ In type Compile.gate_types \/ 4 < argc ->
       exists tr,
         Compile.compile_functor next label type width delay ostr0 ostr1 argc argv
           = Done tr /\
         Compile.reported tr = true).
Proof.
  intro H.
  destruct (H 7 "out"%string "AND"%string 1 None 6 6 5
              [Compile.mk_symb "a" 0; Compile.mk_symb "b" 0; Compile.mk_symb "c" 0;
               Compile.mk_symb "d" 0; Compile.mk_symb "e" 0]%string)
    as (tr & Hr & _); [right; lia|].
  vm_compute in Hr. discriminate Hr.
Qed.

(** C8, amended.  A gate-type tag outside the closed enumeration is
    reported, and the call returns having allocated no net and bound no
    label, so the loader can go on.  More than 4 input references to a
    gate of a known type fail the assertion on their number and abort the
    process. *)
Theorem compile_functor_errors
  (next : net_id) (label type : string) (width : nat)
  (delay : option Compile.vvp_delay_t) (ostr0 ostr1 argc : nat)
  (argv : list Compile.symb_s) :
  (~ In type Compile.gate_types ->
   exists tr,
     Compile.compile_functor next label type width delay ostr0 ostr1 argc argv
       = Done tr /\
     Compile.reported tr = true /\
     Compile.allocates tr = false /\
     forall reg, Compile.registry_after tr reg = reg) /\
  (In type Compile.gate_types -> 4 < argc ->
   Compile.compile_functor next label type width delay ostr0 ostr1 argc argv
     = Abort).
Proof.
  unfold Compile.compile_functor. split.
  - intro Hn. apply (select_functor_known type width ostr0 ostr1) in Hn.
    rewrite Hn. eexists. split; [reflexivity|]. repeat split.
  - intros Hin Hargc.
    destruct (Compile.select_functor type width ostr0 ostr1) as [[obj sa]|] eqn:E.
    + replace (argc <=? 4) with false by (symmetry; apply Nat.leb_gt; exact Hargc).
      reflexivity.
    + apply select_functor_known in E. now elim E.
Qed.

Lemma compile_functor_errors_witness :
  (exists tr,
     Compile.compile_functor 7 "out"%string "ANDD"%string 1 None 6 6 2 [] = Done tr /\
     Compile.reported tr = true /\
     Compile.allocates tr = false /\
     forall reg, Compile.registry_after tr reg = reg) /\
  Compile.compile_functor 7 "out"%string "OR"%string 1 None 6 6 5 [] = Abort.
Proof.
  destruct (compile_functor_errors 7 "out"%string "ANDD"%string 1 None 6 6 2 [])
    as [Hu _].
  destruct (compile_functor_errors 7 "out"%string "OR"%string 1 None 6 6 5 [])
    as [_ Ha].
  split.
  - apply Hu. simpl. intuition discriminate.
  - apply Ha; [simpl; auto | lia].
Defined.

(** * Further properties of the functors *)

(** ** The real multiplexer *)

(** X1.  A select of width 1 received by the real multiplexer on port 2
    leaves both data values as they are and sends, within the call, data
    A for a 0 bit, data B for a 1 bit and, for an unknown or floating
    bit, data A if A == B and 0.0 otherwise. *)
Theorem muxr_recv_vec4_selects
  (s : Muxr.vvp_fun_muxr) (ptr : vvp_net_ptr_t) (bit : vvp_vector4_t) :
  ptr_port ptr = P2 -> size bit = 1 ->
  exists s',
    Muxr.recv_vec4 s ptr bit = Done (s', [Send_real (ptr_net ptr) (Muxr.output s')]) /\
    Muxr.a_ s' = Muxr.a_ s /\ Muxr.b_ s' = Muxr.b_ s /\
    (value bit 0 = BIT4_0 ->
     Muxr.select_ s' = 0%Z /\ Muxr.output s' = Muxr.a_ s) /\
    (value bit 0 = BIT4_1 ->
     Muxr.select_ s' = 1%Z /\ Muxr.output s' = Muxr.b_ s) /\
    (is_xz (value bit 0) = true ->
     Muxr.select_ s' = 2%Z /\
     Muxr.output s' =
       if PrimFloat.eqb (Muxr.a_ s) (Muxr.b_ s) then Muxr.a_ s else 0%float).
Proof.
  intros Hp Hs. unfold Muxr.recv_vec4. rewrite Hp, Hs. simpl negb. cbv iota zeta.
  eexists. split; [reflexivity|].
  split; [reflexivity|]. split; [reflexivity|].
  unfold Muxr.output. simpl.
  destruct (value bit 0); simpl; repeat split; intros; try discriminate; reflexivity.
Qed.

Lemma muxr_recv_vec4_selects_witness :
  exists s',
    Muxr.recv_vec4 (Muxr.mk 1.5%float 2%float 0) (mk_ptr 4 P2) [BIT4_Z]
      = Done (s', [Send_real 4 0%float]).
Proof.
  destruct (muxr_recv_vec4_selects (Muxr.mk 1.5%float 2%float 0) (mk_ptr 4 P2)
              [BIT4_Z] eq_refl eq_refl) as (s' & Hr & _ & _ & _ & _ & Hx).
  destruct (Hx eq_refl) as [_ Ho].
  exists s'. rewrite Hr, Ho. reflexivity.
Defined.

(** X2.  The vector receive of either multiplexer aborts exactly when a
    vector whose width is not 1 (the empty vector included) arrives on
    the select port; receives on the other ports never abort. *)
Theorem mux_recv_vec4_abort_iff (ptr : vvp_net_ptr_t) (bit : vvp_vector4_t) :
  (forall s, Muxz.recv_vec4 s ptr bit = Abort <->
             ptr_port ptr = P2 /\ size bit <> 1) /\
  (forall s, Muxr.recv_vec4 s ptr bit = Abort <->
             ptr_port ptr = P2 /\ size bit <> 1).
Proof.
  unfold Muxz.recv_vec4, Muxz.latch, Muxr.recv_vec4.
  split; intro s; destruct (ptr_port ptr);
    try (split; [discriminate | intros [K _]; discriminate K]);
    destruct (Nat.eqb_spec (size bit) 1) as [E|E]; simpl;
    (split; [first [discriminate | intros _; split; [reflexivity | exact E]]
            | first [reflexivity | intros [_ K]; now elim K]]).
Qed.

Lemma mux_recv_vec4_abort_iff_witness :
  Muxz.recv_vec4 (Muxz.create 2) (mk_ptr 0 P2) [] = Abort /\
  Muxr.recv_vec4 Muxr.create (mk_ptr 0 P2) [BIT4_0; BIT4_1] = Abort.
Proof.
  split.
  - apply (mux_recv_vec4_abort_iff (mk_ptr 0 P2) []). split; [reflexivity | discriminate].
  - apply (mux_recv_vec4_abort_iff (mk_ptr 0 P2) [BIT4_0; BIT4_1]).
    split; [reflexivity | discriminate].
Defined.

(** X3.  A real value received by the real multiplexer on port 0 or 1
    returns, and never changes the select nor the other data value.  A
    value that differs (by ==) from the one latched on the port is
    latched there, whatever the select; one that does not differ leaves
    the latched value as it is.  At most one value is sent, which is then
    the value received and the one the latched select chooses; and one is
    sent exactly when the value differs and the select is latched on that
    port: so a data change under an unknown select is latched and not
    sent. *)
Theorem muxr_recv_real_sends
  (s : Muxr.vvp_fun_muxr) (ptr : vvp_net_ptr_t) (r : float) :
  ptr_port ptr = P0 \/ ptr_port ptr = P1 ->
  exists s' acts,
    Muxr.recv_real s ptr r = Done (s', acts) /\
    Muxr.select_ s' = Muxr.select_ s /\
    (ptr_port ptr = P0 ->
     Muxr.b_ s' = Muxr.b_ s /\
     Muxr.a_ s' = if PrimFloat.eqb (Muxr.a_ s) r then Muxr.a_ s else r) /\
    (ptr_port ptr = P1 ->
     Muxr.a_ s' = Muxr.a_ s /\
     Muxr.b_ s' = if PrimFloat.eqb (Muxr.b_ s) r then Muxr.b_ s else r) /\
    (acts = [] \/
     acts = [Send_real (ptr_net ptr) r] /\ Muxr.output s' = r) /\
    (acts <> [] <->
     (ptr_port ptr = P0 /\ PrimFloat.eqb (Muxr.a_ s) r = false /\
      Muxr.select_ s = 0%Z) \/
     (ptr_port ptr = P1 /\ PrimFloat.eqb (Muxr.b_ s) r = false /\
      Muxr.select_ s = 1%Z)) /\
    (Muxr.select_ s <> 0%Z -> Muxr.select_ s <> 1%Z -> acts = []).
Proof.
  destruct s as [a b sel]. unfold Muxr.recv_real, Muxr.output. simpl.
  intros [-> | ->].
  - destruct (PrimFloat.eqb a r) eqn:Ea.
    + exists (Muxr.mk a b sel), []. simpl.
      repeat split; auto; try discriminate.
      * intro K; now elim K.
      * intros [(_ & K & _) | (K & _)]; discriminate K.
    + destruct (Z.eqb_spec sel 0) as [->|Hn].
      * exists (Muxr.mk r b 0), [Send_real (ptr_net ptr) r]. simpl.
        repeat split; auto; try discriminate.
        intros K; now elim K.
      * exists (Muxr.mk r b sel), []. simpl.
        repeat split; auto; try discriminate.
        -- intro K; now elim K.
        -- intros [(_ & _ & K) | (K & _)]; [now elim Hn | discriminate K].
  - destruct (PrimFloat.eqb b r) eqn:Eb.
    + exists (Muxr.mk a b sel), []. simpl.
      repeat split; auto; try discriminate.
      * intro K; now elim K.
      * intros [(K & _) | (_ & K & _)]; discriminate K.
    + destruct (Z.eqb_spec sel 1) as [->|Hn].
      * exists (Muxr.mk a r 1), [Send_real (ptr_net ptr) r]. simpl.
        repeat split; auto; try discriminate.
        intros _ K; now elim K.
      * exists (Muxr.mk a r sel), []. simpl.
        repeat split; auto; try discriminate.
        -- intro K; now elim K.
        -- intros [(K & _) | (_ & _ & K)]; [discriminate K | now elim Hn].
Qed.

Lemma muxr_recv_real_sends_witness :
  exists s',
    Muxr.recv_real (Muxr.mk 0%float 0%float 2) (mk_ptr 3 P0) 1.5%float
      = Done (s', []) /\
    Muxr.a_ s' = 1.5%float /\ Muxr.b_ s' = 0%float /\ Muxr.select_ s' = 2%Z.
Proof.
  destruct (muxr_recv_real_sends (Muxr.mk 0%float 0%float 2) (mk_ptr 3 P0) 1.5%float)
    as (s' & acts & Hr & Hsel & Ha & _ & _ & _ & Hx); [left; reflexivity|].
  destruct (Ha eq_refl) as [Hb Hlatch].
  exists s'. rewrite Hr, (Hx ltac:(discriminate) ltac:(discriminate)).
  split; [reflexivity|]. split; [exact Hlatch|]. split; [exact Hb | exact Hsel].
Defined.

(** ** The vector multiplexer under an unknown select *)

Lemma bit_eqb_sym (a b : vvp_bit4_t) : Bit4.eqb a b = Bit4.eqb b a.
Proof. now destruct a, b. Qed.

Lemma make_all_unknown (v : vvp_vector4_t) :
  (forall i, value v i = BIT4_X) -> v = make (size v).
Proof.
  intro H. apply vector_ext; [now rewrite size_make|].
  intros j _. now rewrite H, value_make.
Qed.

Lemma muxz_create_members (wid : nat) :
  Muxz.create wid = Muxz.mk (make wid) (make wid) 2.
Proof.
  unfold Muxz.create.
  set (set_x := fun (idx : nat) (ab : vvp_vector4_t * vvp_vector4_t) =>
                  (set_bit (fst ab) idx BIT4_X, set_bit (snd ab) idx BIT4_X)).
  assert (H : forall len lo a b,
             lo + len <= size a -> lo + len <= size b ->
             (forall i, value a i = BIT4_X) -> (forall i, value b i = BIT4_X) ->
             let ab := fold_left (fun x idx => set_x idx x) (seq lo len) (a, b) in
             (size (fst ab) = size a /\ forall i, value (fst ab) i = BIT4_X) /\
             (size (snd ab) = size b /\ forall i, value (snd ab) i = BIT4_X)).
  { induction len as [|len IH]; intros lo a b Ha Hb Xa Xb; simpl.
    - auto.
    - destruct (IH (S lo) (set_bit a lo BIT4_X) (set_bit b lo BIT4_X))
        as [[Sa Va] [Sb Vb]]; rewrite ?size_set_bit; try lia.
      + intro i. rewrite value_set_bit. now destruct (_ && _).
      + intro i. rewrite value_set_bit. now destruct (_ && _).
      + rewrite size_set_bit in Sa, Sb. auto. }
  destruct (H (wid - 0) 0 (make wid) (make wid)) as [[Sa Va] [Sb Vb]];
    rewrite ?size_make; try lia; try (intro i; apply value_make).
  unfold for_loop. rewrite size_make in Sa, Sb.
  rewrite (make_all_unknown _ Va), (make_all_unknown _ Vb), Sa, Sb.
  reflexivity.
Qed.

Lemma reconcile_comm (a b : vvp_vector4_t) :
  Muxz.reconcile a b = Muxz.reconcile b a.
Proof.
  destruct (reconcile_bits a b) as [Sab Vab].
  destruct (reconcile_bits b a) as [Sba Vba].
  apply vector_ext.
  - rewrite Sab, Sba. apply Nat.max_comm.
  - intros j _. rewrite Vab, Vba, Nat.min_comm, bit_eqb_sym.
    destruct (j <? Nat.min (size b) (size a)); [|reflexivity].
    destruct (Bit4.eqb (value b j) (value a j)) eqn:E; [|reflexivity].
    apply bit_eqb_eq in E. now symmetry.
Qed.

Lemma reconcile_same (a : vvp_vector4_t) : Muxz.reconcile a a = a.
Proof.
  destruct (reconcile_bits a a) as [Saa Vaa].
  apply vector_ext.
  - rewrite Saa. apply Nat.max_id.
  - intros j Hj. rewrite Saa, Nat.max_id in Hj. rewrite Vaa, Nat.min_id.
    replace (j <? size a) with true by (symmetry; apply Nat.ltb_lt; exact Hj).
    now rewrite (proj2 (bit_eqb_eq _ _) eq_refl).
Qed.

(** X4.  Under a select that is neither 0 nor 1 the vector multiplexer
    treats its two data inputs alike: swapping A and B gives the same
    vector, and when A and B are the same vector that vector is sent
    unchanged. *)
Theorem muxz_unknown_select_symmetric (a b : vvp_vector4_t) (sel : Z) :
  sel <> 0%Z -> sel <> 1%Z ->
  Muxz.output (Muxz.mk a b sel) = Muxz.output (Muxz.mk b a sel) /\
  Muxz.output (Muxz.mk a a sel) = a.
Proof.
  intros H0 H1. unfold Muxz.output. simpl.
  apply Z.eqb_neq in H0, H1. rewrite H0, H1.
  split; [apply reconcile_comm | apply reconcile_same].
Qed.

Lemma muxz_unknown_select_symmetric_witness :
  Muxz.output (Muxz.mk [BIT4_1; BIT4_Z] [BIT4_1; BIT4_0; BIT4_0] 2)
  = Muxz.output (Muxz.mk [BIT4_1; BIT4_0; BIT4_0] [BIT4_1; BIT4_Z] 2).
Proof.
  apply (muxz_unknown_select_symmetric [BIT4_1; BIT4_Z] [BIT4_1; BIT4_0; BIT4_0] 2);
    discriminate.
Defined.

(** X5.  A vector multiplexer built for width [wid] starts with both data
    vectors all unknown and an unknown select, so the first data vector
    it receives, on port 0 or on port 1, makes it send an all-unknown
    vector as long as the longer of that vector and [wid]. *)
Theorem muxz_fresh_sends_unknown (wid : nat) (ptr : vvp_net_ptr_t) (bit : vvp_vector4_t) :
  ptr_port ptr = P0 \/ ptr_port ptr = P1 ->
  exists s',
    Muxz.recv_vec4 (Muxz.create wid) ptr bit =
      Done (s', [Send_vec4 (ptr_net ptr) (make (Nat.max (size bit) wid))]).
Proof.
  intros Hp. rewrite muxz_create_members.
  assert (Hrec : Muxz.reconcile bit (make wid) = make (Nat.max (size bit) wid)).
  { destruct (reconcile_bits bit (make wid)) as [Hs Hv].
    rewrite size_make in Hs.
    rewrite <- Hs. apply make_all_unknown.
    intro i. rewrite Hv, value_make.
    destruct (i <? _); [|reflexivity].
    destruct (Bit4.eqb (value bit i) BIT4_X) eqn:E; [|reflexivity].
    now apply bit_eqb_eq in E. }
  unfold Muxz.recv_vec4, Muxz.latch.
  destruct Hp as [-> | ->]; eexists; unfold Muxz.output; simpl.
  - rewrite Hrec. reflexivity.
  - rewrite reconcile_comm, Hrec. reflexivity.
Qed.

Lemma muxz_fresh_sends_unknown_witness :
  exists s',
    Muxz.recv_vec4 (Muxz.create 1) (mk_ptr 6 P1) [BIT4_1; BIT4_0] =
      Done (s', [Send_vec4 6 [BIT4_X; BIT4_X]]).
Proof.
  apply (muxz_fresh_sends_unknown 1 (mk_ptr 6 P1) [BIT4_1; BIT4_0]).
  right. reflexivity.
Defined.

(** X6.  Under a select that is neither 0 nor 1 the vector multiplexer
    invents no value: a bit of the vector it sends that is not unknown
    lies within both data vectors and is the bit both of them hold. *)
Theorem muxz_unknown_select_sound (a b : vvp_vector4_t) (sel : Z) (i : nat) :
  sel <> 0%Z -> sel <> 1%Z ->
  value (Muxz.output (Muxz.mk a b sel)) i <> BIT4_X ->
  i < size a /\ i < size b /\
  value a i = value (Muxz.output (Muxz.mk a b sel)) i /\
  value b i = value (Muxz.output (Muxz.mk a b sel)) i.
Proof.
  intros H0 H1. unfold Muxz.output. simpl.
  apply Z.eqb_neq in H0, H1. rewrite H0, H1.
  destruct (reconcile_bits a b) as [_ Hv]. rewrite Hv.
  destruct (i <? Nat.min (size a) (size b)) eqn:E; [|intro K; now elim K].
  apply Nat.ltb_lt in E.
  destruct (Bit4.eqb (value a i) (value b i)) eqn:Eb; [|intro K; now elim K].
  apply bit_eqb_eq in Eb. intros _.
  repeat split; try lia; congruence.
Qed.

Lemma muxz_unknown_select_sound_witness :
  value [BIT4_0; BIT4_1] 1 = BIT4_1 /\ value [BIT4_Z; BIT4_1; BIT4_0] 1 = BIT4_1.
Proof.
  destruct (muxz_unknown_select_sound [BIT4_0; BIT4_1] [BIT4_Z; BIT4_1; BIT4_0] 2 1)
    as (_ & _ & Ha & Hb); try discriminate.
  split; [rewrite Ha | rewrite Hb]; reflexivity.
Defined.

(** ** The buffers *)

Lemma size_change_z2x (v : vvp_vector4_t) : size (change_z2x v) = size v.
Proof. apply length_map. Qed.

Lemma value_change_z2x (v : vvp_vector4_t) (i : nat) :
  value (change_z2x v) i =
  match value v i with BIT4_Z => BIT4_X | b => b end.
Proof.
  unfold value, change_z2x. revert i.
  induction v as [|x v IH]; intros [|i]; simpl; auto.
  now destruct x.
Qed.

(** X7.  A vector received by BUF on port 0 is sent on within the call
    with the same width, no floating bit, and every bit that was not
    floating unchanged; a second BUF behind it changes nothing more.
    BUFZ sends the vector exactly as received. *)
Theorem buf_recv_vec4_collapses (ptr : vvp_net_ptr_t) (bit : vvp_vector4_t) :
  ptr_port ptr = P0 ->
  exists out,
    Buf.recv_vec4 ptr bit = Done [Send_vec4 (ptr_net ptr) out] /\
    size out = size bit /\
    (forall i, value out i <> BIT4_Z) /\
    (forall i, value bit i <> BIT4_Z -> value out i = value bit i) /\
    (forall i, value bit i = BIT4_Z -> i < size bit -> value out i = BIT4_X) /\
    Buf.recv_vec4 ptr out = Done [Send_vec4 (ptr_net ptr) out] /\
    Bufz.recv_vec4 ptr bit = Done [Send_vec4 (ptr_net ptr) bit].
Proof.
  intro Hp. unfold Buf.recv_vec4, Bufz.recv_vec4. rewrite Hp.
  exists (change_z2x bit). split; [reflexivity|].
  split; [apply size_change_z2x|].
  split; [intro i; rewrite value_change_z2x; now destruct (value bit i)|].
  split; [intros i Hi; rewrite value_change_z2x; now destruct (value bit i)|].
  split; [intros i Hi _; rewrite value_change_z2x, Hi; reflexivity|].
  split; [|reflexivity].
  do 2 f_equal. f_equal. apply vector_ext.
  - now rewrite !size_change_z2x.
  - intros j _. rewrite !value_change_z2x. now destruct (value bit j).
Qed.

Lemma buf_recv_vec4_collapses_witness :
  exists out,
    Buf.recv_vec4 (mk_ptr 2 P0) [BIT4_Z; BIT4_1; BIT4_X; BIT4_0]
      = Done [Send_vec4 2 out] /\
    size out = 4 /\ value out 0 = BIT4_X /\ value out 1 = BIT4_1.
Proof.
  destruct (buf_recv_vec4_collapses (mk_ptr 2 P0) [BIT4_Z; BIT4_1; BIT4_X; BIT4_0]
              eq_refl) as (out & Hr & Hs & _ & Hk & Hz & _).
  exists out. split; [exact Hr|]. split; [exact Hs|]. split.
  - apply Hz; [reflexivity | simpl; lia].
  - rewrite Hk; [reflexivity | discriminate].
Defined.

(** ** The AND gate *)

Lemma eeq_true_eq (a b : vvp_vector4_t) : eeq a b = true -> a = b.
Proof.
  revert b; induction a as [|x a IH]; intros [|y b]; simpl; try congruence.
  intros H. apply andb_true_iff in H as [Hx Hr].
  apply bit_eqb_eq in Hx. apply IH in Hr. congruence.
Qed.

Lemma value_beyond (v : vvp_vector4_t) (i : nat) :
  size v <= i -> value v i = BIT4_X.
Proof. intro H. apply nth_overflow. exact H. Qed.

(** X8.  Whatever a receive of the AND gate did, the vector is latched on
    the port afterwards, and the same vector received again on that port
    is suppressed: the members stay as they are and nothing is scheduled.
    So a run of equal vectors on a port schedules at most one
    evaluation. *)
Theorem and_recv_vec4_repeat
  (s s1 : Boolean.vvp_fun_boolean_) (ptr : vvp_net_ptr_t) (bit : vvp_vector4_t)
  (acts : list action) :
  Boolean.recv_vec4 s ptr bit = Done (s1, acts) ->
  get_input (Boolean.input_ s1) (ptr_port ptr) = bit /\
  Boolean.recv_vec4 s1 ptr bit = Done (s1, []).
Proof.
  unfold Boolean.recv_vec4.
  destruct (eeq (get_input (Boolean.input_ s) (ptr_port ptr)) bit) eqn:E;
    intros [= <- <-].
  - split; [now apply eeq_true_eq|]. now rewrite E.
  - simpl. rewrite get_set_input, Nat.eqb_refl, eeq_refl. auto.
Qed.

Lemma and_recv_vec4_repeat_witness :
  Boolean.recv_vec4
    (Boolean.mk (mk_inputs [BIT4_X] [BIT4_1] [BIT4_X] [BIT4_X]) (Some 9))
    (mk_ptr 9 P1) [BIT4_1]
  = Done (Boolean.mk (mk_inputs [BIT4_X] [BIT4_1] [BIT4_X] [BIT4_X]) (Some 9), []).
Proof.
  apply (and_recv_vec4_repeat (Boolean.create 1) _ (mk_ptr 9 P1) [BIT4_1]
           [Schedule_generic 0 false]).
  reflexivity.
Defined.

(** X9.  A bit of the vector the AND gate computes is never floating, and
    it is 1 exactly when each of the four latched inputs reaches that bit
    and holds 1 there: an input never received (all unknown from the
    constructor) keeps every bit of the result at 0 or unknown. *)
Theorem and_result_one (inp : inputs4) (idx : nat) :
  idx < size (in0 inp) ->
  value (Boolean.and_result inp) idx <> BIT4_Z /\
  (value (Boolean.and_result inp) idx = BIT4_1 <->
   forall p, idx < size (get_input inp p) /\ value (get_input inp p) idx = BIT4_1).
Proof.
  intro Hlt. destruct (and_result_bits inp) as [_ Hv].
  rewrite (Hv idx Hlt), and_ports3.
  destruct inp as [i0 i1 i2 i3]; simpl in *.
  destruct (size i1 <? idx) eqn:E1; [|destruct (size i2 <? idx) eqn:E2;
    [|destruct (size i3 <? idx) eqn:E3]]; simpl orb; cbv iota.
  1-3: split; [discriminate|]; split; [discriminate|]; intro H.
  - destruct (H P1) as [K _]. simpl in K. apply Nat.ltb_lt in E1. lia.
  - destruct (H P2) as [K _]. simpl in K. apply Nat.ltb_lt in E2. lia.
  - destruct (H P3) as [K _]. simpl in K. apply Nat.ltb_lt in E3. lia.
  - apply Nat.ltb_ge in E1, E2, E3. split.
    + now destruct (value i0 idx), (value i1 idx), (value i2 idx), (value i3 idx).
    + split.
      * intros H p.
        assert (V : value i0 idx = BIT4_1 /\ value i1 idx = BIT4_1 /\
                    value i2 idx = BIT4_1 /\ value i3 idx = BIT4_1).
        { destruct (value i0 idx), (value i1 idx), (value i2 idx), (value i3 idx);
            simpl in H; try discriminate H; auto. }
        destruct V as (V0 & V1 & V2 & V3).
        assert (W : forall v, idx <= size v -> value v idx = BIT4_1 -> idx < size v).
        { intros v Hle Hv1. destruct (Nat.eq_dec (size v) idx) as [K|K]; [|lia].
          rewrite value_beyond in Hv1 by lia. discriminate Hv1. }
        destruct p; simpl; auto.
      * intros H.
        destruct (H P0) as [_ V0]. destruct (H P1) as [_ V1].
        destruct (H P2) as [_ V2]. destruct (H P3) as [_ V3].
        simpl in V0, V1, V2, V3. now rewrite V0, V1, V2, V3.
Qed.

Lemma and_result_one_witness :
  value (Boolean.and_result
           (mk_inputs [BIT4_1; BIT4_1] [BIT4_1; BIT4_X] [BIT4_1; BIT4_1]
              [BIT4_1; BIT4_1])) 0 = BIT4_1.
Proof.
  apply (and_result_one
           (mk_inputs [BIT4_1; BIT4_1] [BIT4_1; BIT4_X] [BIT4_1; BIT4_1]
              [BIT4_1; BIT4_1]) 0).
  - simpl. lia.
  - intros []; simpl; split; try lia; reflexivity.
Defined.

(** ** Construction *)

(** X10.  The functor object built for a tag ignores the width unless the
    tag is AND or MUXZ, and ignores the two drive strengths unless the
    gate is strength-aware (BUFIF0, BUFIF1, NOTIF0, NOTIF1). *)
Theorem select_functor_parameters
  (type : string) (width width' ostr0 ostr1 ostr0' ostr1' : nat) :
  (type <> "AND"%string -> type <> "MUXZ"%string ->
   Compile.select_functor type width ostr0 ostr1 =
   Compile.select_functor type width' ostr0 ostr1) /\
  (~ In type Compile.strength_aware_types ->
   Compile.select_functor type width ostr0 ostr1 =
   Compile.select_functor type width ostr0' ostr1').
Proof.
  unfold Compile.select_functor, Compile.strength_aware_types.
  split.
  - intros Ha Hm. by_tag type; try reflexivity; congruence.
  - intros Hn. by_tag type; try reflexivity; exfalso; apply Hn; in_list.
Qed.

Lemma select_functor_parameters_witness :
  Compile.select_functor "XOR" 1 6 6 = Compile.select_functor "XOR" 8 6 6 /\
  Compile.select_functor "MUXZ" 4 6 6 = Compile.select_functor "MUXZ" 4 3 5.
Proof.
  destruct (select_functor_parameters "XOR" 1 8 6 6 6 6) as [Hw _].
  destruct (select_functor_parameters "MUXZ" 4 4 6 6 3 5) as [_ Hs].
  split.
  - apply Hw; discriminate.
  - apply Hs. simpl. intuition discriminate.
Defined.

(** X11.  A call that builds an element allocates the gate's net first,
    attaches the functor to it and connects the inputs to it, once and
    with the arguments as given, which are at most 4; the label is bound
    once, by the last step; and in between there is either nothing or the
    one wrapper net with its functor and the gate's pointer to its
    port 0.  The wrapper itself gets no inputs connected. *)
Theorem compile_functor_trace
  (next : net_id) (label type : string) (width : nat)
  (delay : option Compile.vvp_delay_t) (ostr0 ostr1 argc : nat)
  (argv : list Compile.symb_s) (obj : Compile.vvp_net_fun_t) (sa : bool)
  (tr : list Compile.event) :
  Compile.select_functor type width ostr0 ostr1 = Some (obj, sa) ->
  Compile.compile_functor next label type width delay ostr0 ostr1 argc argv = Done tr ->
  argc <= 4 /\
  exists mid n,
    tr = [Compile.New_net next; Compile.Set_fun next obj;
          Compile.Inputs_connect next argc argv]
         ++ mid ++ [Compile.Define_functor_symbol label n] /\
    ((mid = [] /\ n = next) \/
     (exists w,
        Compile.is_wrapper w = true /\
        mid = [Compile.New_net (S next); Compile.Set_fun (S next) w;
               Compile.Set_out next (mk_ptr (S next) P0)] /\
        n = S next)).
Proof.
  intros Hsel. unfold Compile.compile_functor. rewrite Hsel.
  destruct (Nat.leb_spec argc 4) as [Hle|Hgt]; simpl negb; cbv iota;
    [|discriminate].
  intro H. split; [exact Hle|].
  destruct (sa || ((ostr0 =? 6) && (ostr1 =? 6) && Compile.is_null delay));
    injection H as <-.
  - exists [], next. split; [reflexivity|]. left. auto.
  - set (w := match delay with
              | Some d =>
                  if (ostr0 =? 6) && (ostr1 =? 6)
                  then Compile.vvp_fun_delay (S next) BIT4_X d
                  else Compile.vvp_fun_drive BIT4_X ostr0 ostr1
              | None => Compile.vvp_fun_drive BIT4_X ostr0 ostr1
              end).
    exists [Compile.New_net (S next); Compile.Set_fun (S next) w;
            Compile.Set_out next (mk_ptr (S next) P0)], (S next).
    split; [reflexivity|]. right.
    exists w. split; [|split; reflexivity].
    unfold w. destruct delay; [destruct ((ostr0 =? 6) && (ostr1 =? 6))|]; reflexivity.
Qed.

Lemma compile_functor_trace_witness :
  exists mid n,
    Compile.compile_functor 3 "y"%string "NOR"%string 1 None 6 2 2 [] =
      Done ([Compile.New_net 3; Compile.Set_fun 3 (Compile.table_functor_s Compile.ft_NOR);
             Compile.Inputs_connect 3 2 []]
            ++ mid ++ [Compile.Define_functor_symbol "y"%string n]).
Proof.
  destruct (compile_functor_trace 3 "y"%string "NOR"%string 1 None 6 2 2 []
              (Compile.table_functor_s Compile.ft_NOR) false _ eq_refl eq_refl)
    as (_ & mid & n & Htr & _).
  exists mid, n. rewrite <- Htr. reflexivity.
Defined.

(** * Properties of the code generator's global state *)

(** ** The map of known signals *)

Lemma map_find_set_same (k : nat) (v : VhdlState.signal_defn_t)
  (m : VhdlState.signal_defn_map_t) :
  VhdlState.map_find k (VhdlState.map_set k v m) = Some v.
Proof.
  induction m as [|[k' v'] m IH]; simpl.
  - now rewrite Nat.eqb_refl.
  - destruct (k <? k'); simpl; [now rewrite Nat.eqb_refl|].
    destruct (Nat.eqb_spec k k') as [->|Hne]; simpl.
    + now rewrite Nat.eqb_refl.
    + destruct (Nat.eqb_spec k' k); [congruence | exact IH].
Qed.

Lemma map_find_set_other (k j : nat) (v : VhdlState.signal_defn_t)
  (m : VhdlState.signal_defn_map_t) :
  j <> k ->
  VhdlState.map_find j (VhdlState.map_set k v m) = VhdlState.map_find j m.
Proof.
  intro Hne. induction m as [|[k' v'] m IH]; simpl.
  - destruct (Nat.eqb_spec k j); [congruence | reflexivity].
  - destruct (k <? k'); simpl.
    + destruct (Nat.eqb_spec k j); [congruence | reflexivity].
    + destruct (Nat.eqb_spec k k') as [->|Hk]; simpl.
      * destruct (Nat.eqb_spec k' j); [congruence | reflexivity].
      * now rewrite IH.
Qed.

Lemma ascending_head (k : nat) (keys : list nat) :
  VhdlState.ascending (k :: keys) -> forall x, In x keys -> k < x.
Proof.
  revert k; induction keys as [|k' keys IH]; intros k [Hk Hr] x Hin; [easy|].
  destruct Hin as [<- | Hin]; [exact Hk|].
  pose proof (IH k' Hr x Hin). lia.
Qed.

Lemma ascending_tail (k : nat) (keys : list nat) :
  VhdlState.ascending (k :: keys) -> VhdlState.ascending keys.
Proof. intros [_ H]. exact H. Qed.

Lemma ascending_cons (k : nat) (keys : list nat) :
  (forall x, In x keys -> k < x) -> VhdlState.ascending keys ->
  VhdlState.ascending (k :: keys).
Proof.
  intros Hlt Hasc. split; [|exact Hasc].
  destruct keys as [|k' keys]; [exact I|]. apply Hlt. now left.
Qed.

Lemma map_set_keys (k : nat) (v : VhdlState.signal_defn_t)
  (m : VhdlState.signal_defn_map_t) (x : nat) :
  In x (map fst (VhdlState.map_set k v m)) <-> x = k \/ In x (map fst m).
Proof.
  induction m as [|[k' v'] m IH]; simpl.
  - intuition.
  - destruct (k <? k'); simpl; [intuition|].
    destruct (Nat.eqb_spec k k') as [->|Hne]; simpl; [intuition|].
    rewrite IH. intuition.
Qed.

Lemma map_set_ascending (k : nat) (v : VhdlState.signal_defn_t)
  (m : VhdlState.signal_defn_map_t) :
  VhdlState.ascending (map fst m) ->
  VhdlState.ascending (map fst (VhdlState.map_set k v m)).
Proof.
  induction m as [|[k' v'] m IH]; intro Hasc; cbn [VhdlState.map_set].
  - simpl. auto.
  - destruct (Nat.ltb_spec k k') as [Hlt|Hge];
      [|destruct (Nat.eqb_spec k k') as [->|Hne]];
      cbn [map fst] in *.
    + apply ascending_cons; [|exact Hasc].
      intros x [<- | Hin]; [exact Hlt|].
      pose proof (ascending_head _ _ Hasc x Hin). lia.
    + exact Hasc.
    + apply ascending_cons; [|apply IH; exact (ascending_tail _ _ Hasc)].
      intros x Hin. apply map_set_keys in Hin as [-> | Hin]; [lia|].
      exact (ascending_head _ _ Hasc x Hin).
Qed.

Lemma map_find_in (k : nat) (v : VhdlState.signal_defn_t)
  (m : VhdlState.signal_defn_map_t) :
  VhdlState.ascending (map fst m) -> In (k, v) m ->
  VhdlState.map_find k m = Some v.
Proof.
  induction m as [|[k' v'] m IH]; intros Hasc Hin; [easy|].
  simpl. destruct Hin as [[= -> ->] | Hin].
  - now rewrite Nat.eqb_refl.
  - assert (Hlt : k' < k).
    { apply (ascending_head _ _ Hasc). now apply (in_map fst) in Hin. }
    destruct (Nat.eqb_spec k' k); [lia|].
    apply IH; [exact (ascending_tail _ _ Hasc) | exact Hin].
Qed.

Lemma map_find_some_in (k : nat) (v : VhdlState.signal_defn_t)
  (m : VhdlState.signal_defn_map_t) :
  VhdlState.map_find k m = Some v -> In (k, v) m.
Proof.
  induction m as [|[k' v'] m IH]; simpl; [discriminate|].
  destruct (Nat.eqb_spec k' k) as [->|Hne].
  - intros [= ->]. now left.
  - intro H. right. now apply IH.
Qed.

(** X12.  [remember_signal] aborts for a signal that is already known.
    For a new one it returns, and afterwards the signal is known, its
    scope is the one given and its VHDL name is its Verilog base name,
    while every other signal, the entities and the default scopes are as
    before. *)
Theorem remember_signal_lookup
  (E : VhdlState.externals) (g : VhdlState.globals) (sig : VhdlState.ivl_signal_t)
  (scope : option VhdlState.vhdl_scope_ptr) :
  (VhdlState.seen_signal_before g sig = true ->
   VhdlState.remember_signal E g sig scope = Abort) /\
  (VhdlState.seen_signal_before g sig = false ->
   exists g',
     VhdlState.remember_signal E g sig scope = Done g' /\
     VhdlState.seen_signal_before g' sig = true /\
     VhdlState.find_scope_for_signal g' sig = scope /\
     VhdlState.get_renamed_signal g' sig
       = Done (VhdlState.ivl_signal_basename E sig) /\
     (forall other, other <> sig ->
        VhdlState.map_find other (VhdlState.g_known_signals g')
        = VhdlState.map_find other (VhdlState.g_known_signals g)) /\
     VhdlState.g_entities g' = VhdlState.g_entities g /\
     VhdlState.g_default_scopes g' = VhdlState.g_default_scopes g /\
     VhdlState.g_active_entity g' = VhdlState.g_active_entity g).
Proof.
  unfold VhdlState.remember_signal. split; intros ->; [reflexivity|].
  simpl. eexists. split; [reflexivity|].
  unfold VhdlState.seen_signal_before, VhdlState.find_scope_for_signal,
    VhdlState.get_renamed_signal. simpl.
  rewrite map_find_set_same. simpl.
  repeat split; auto.
  intros other Hne. now apply map_find_set_other.
Qed.

Lemma remember_signal_lookup_witness :
  exists g',
    VhdlState.remember_signal
      (VhdlState.mk_externals (fun _ => "clk"%string) (fun _ => "top"%string)
         (fun _ => true) (fun _ => None) (fun _ => "top"%string) (fun _ => 0%Z))
      VhdlState.initial 5 (Some 1) = Done g' /\
    VhdlState.get_renamed_signal g' 5 = Done "clk"%string.
Proof.
  destruct (remember_signal_lookup
              (VhdlState.mk_externals (fun _ => "clk"%string) (fun _ => "top"%string)
                 (fun _ => true) (fun _ => None) (fun _ => "top"%string) (fun _ => 0%Z))
              VhdlState.initial 5 (Some 1)) as [_ H].
  destruct (H eq_refl) as (g' & Hr & _ & _ & Hn & _).
  exists g'. split; [exact Hr | exact Hn].
Defined.

(** X13.  [rename_signal] and [get_renamed_signal] abort for a signal
    that is not known.  For a known one the rename returns, and
    afterwards the signal's VHDL name is the new one while its scope is
    kept and every other signal is as before; so the last of several
    renames is the one in force. *)
Theorem rename_signal_lookup
  (g : VhdlState.globals) (sig : VhdlState.ivl_signal_t) (name : string) :
  (VhdlState.seen_signal_before g sig = false ->
   VhdlState.rename_signal g sig name = Abort /\
   VhdlState.get_renamed_signal g sig = Abort) /\
  (VhdlState.seen_signal_before g sig = true ->
   exists g',
     VhdlState.rename_signal g sig name = Done g' /\
     VhdlState.get_renamed_signal g' sig = Done name /\
     VhdlState.find_scope_for_signal g' sig = VhdlState.find_scope_for_signal g sig /\
     (forall other, other <> sig ->
        VhdlState.map_find other (VhdlState.g_known_signals g')
        = VhdlState.map_find other (VhdlState.g_known_signals g)) /\
     (forall name', exists g'',
        VhdlState.rename_signal g' sig name' = Done g'' /\
        VhdlState.get_renamed_signal g'' sig = Done name')).
Proof.
  unfold VhdlState.seen_signal_before, VhdlState.rename_signal,
    VhdlState.get_renamed_signal, VhdlState.find_scope_for_signal.
  destruct (VhdlState.map_find sig (VhdlState.g_known_signals g)) as [defn|] eqn:E;
    split; try discriminate; intros _; [|auto].
  eexists. split; [reflexivity|]. simpl.
  rewrite map_find_set_same. simpl.
  split; [reflexivity|]. split; [reflexivity|].
  split; [intros other Hne; now apply map_find_set_other|].
  intro name'. eexists. split; [reflexivity|]. simpl.
  now rewrite map_find_set_same.
Qed.

Lemma rename_signal_lookup_witness :
  exists g',
    VhdlState.rename_signal
      (VhdlState.mk_globals [] [(5, VhdlState.mk_defn "in" (Some 1))] None [])
      5 "in_Sig"%string = Done g' /\
    VhdlState.get_renamed_signal g' 5 = Done "in_Sig"%string.
Proof.
  destruct (rename_signal_lookup
              (VhdlState.mk_globals [] [(5, VhdlState.mk_defn "in" (Some 1))] None [])
              5 "in_Sig"%string) as [_ H].
  destruct (H eq_refl) as (g' & Hr & Hn & _).
  exists g'. split; [exact Hr | exact Hn].
Defined.

(** ** Finding a signal by its VHDL name *)

Lemma scope_ptr_eqb_eq (a b : option VhdlState.vhdl_scope_ptr) :
  VhdlState.scope_ptr_eqb a b = true <-> a = b.
Proof.
  destruct a as [x|], b as [y|]; simpl; split; try congruence.
  - intro H. apply Nat.eqb_eq in H. congruence.
  - intros [= ->]. apply Nat.eqb_refl.
Qed.

Lemma names_signal_true (E : VhdlState.externals) (name : string)
  (sc : VhdlState.vhdl_scope_ptr) (defn : VhdlState.signal_defn_t) :
  VhdlState.names_signal E name sc defn = true <->
  (VhdlState.scope defn = Some sc \/
   VhdlState.scope defn = VhdlState.get_parent E sc) /\
  VhdlState.renamed defn = name.
Proof.
  unfold VhdlState.names_signal.
  rewrite andb_true_iff, orb_true_iff, !scope_ptr_eqb_eq, String.eqb_eq.
  reflexivity.
Qed.

Lemma find_signal_loop_split (E : VhdlState.externals) (name : string)
  (sc : VhdlState.vhdl_scope_ptr) (m : VhdlState.signal_defn_map_t) :
  match VhdlState.find_signal_loop E name sc m with
  | Done sig =>
      exists defn l1 l2,
        m = l1 ++ (sig, defn) :: l2 /\
        VhdlState.names_signal E name sc defn = true /\
        forall k d, In (k, d) l1 -> VhdlState.names_signal E name sc d = false
  | Abort =>
      forall k d, In (k, d) m -> VhdlState.names_signal E name sc d = false
  end.
Proof.
  induction m as [|[k v] m IH]; simpl; [easy|].
  destruct (VhdlState.names_signal E name sc v) eqn:Ev.
  - exists v, [], m. repeat split; easy.
  - destruct (VhdlState.find_signal_loop E name sc m) as [sig|].
    + destruct IH as (defn & l1 & l2 & -> & Hn & Hl).
      exists defn, ((k, v) :: l1), l2. repeat split; auto.
      intros k' d [[= <- <-] | Hin]; [exact Ev | eapply Hl; exact Hin].
    + intros k' d [[= <- <-] | Hin]; [exact Ev | eapply IH; exact Hin].
Qed.

Lemma ascending_split (l1 l2 : VhdlState.signal_defn_map_t)
  (k : nat) (v : VhdlState.signal_defn_t) :
  VhdlState.ascending (map fst (l1 ++ (k, v) :: l2)) ->
  forall x, In x (map fst l2) -> k < x.
Proof.
  induction l1 as [|e l1 IH]; intros Hasc x Hin.
  - exact (ascending_head _ _ Hasc x Hin).
  - apply IH; [|exact Hin]. exact (ascending_tail _ _ Hasc).
Qed.

Lemma find_signal_loop_spec (E : VhdlState.externals) (name : string)
  (sc : VhdlState.vhdl_scope_ptr) (m : VhdlState.signal_defn_map_t) :
  VhdlState.ascending (map fst m) ->
  (forall sig,
     VhdlState.find_signal_loop E name sc m = Done sig ->
     exists defn,
       VhdlState.map_find sig m = Some defn /\
       VhdlState.names_signal E name sc defn = true /\
       forall sig' d,
         sig' < sig -> VhdlState.map_find sig' m = Some d ->
         VhdlState.names_signal E name sc d = false) /\
  (VhdlState.find_signal_loop E name sc m = Abort <->
   forall sig d,
     VhdlState.map_find sig m = Some d ->
     VhdlState.names_signal E name sc d = false).
Proof.
  intro Hasc.
  pose proof (find_signal_loop_split E name sc m) as H.
  destruct (VhdlState.find_signal_loop E name sc m) as [sig0|].
  - destruct H as (defn & l1 & l2 & Hm & Hn & Hl).
    assert (Hf : VhdlState.map_find sig0 m = Some defn).
    { apply map_find_in; [exact Hasc|]. rewrite Hm. apply in_elt. }
    split.
    + intros sig [= <-]. exists defn. split; [exact Hf|]. split; [exact Hn|].
      intros sig' d Hlt Hd. apply map_find_some_in in Hd.
      rewrite Hm in Hd. apply in_app_or in Hd as [Hd | [[= -> _] | Hd]].
      * eapply Hl; exact Hd.
      * lia.
      * rewrite Hm in Hasc.
        pose proof (ascending_split _ _ _ _ Hasc sig' (in_map fst _ _ Hd)).
        simpl in *. lia.
    + split; [discriminate|]. intro Hall.
      rewrite (Hall _ _ Hf) in Hn. discriminate Hn.
  - split; [discriminate|]. split; [|reflexivity].
    intros _ sig d Hd. eapply H. apply map_find_some_in. exact Hd.
Qed.

(** X14.  [find_signal_named] on a well-formed map returns a known signal
    whose VHDL name is the one asked for and whose scope is the given
    scope or its parent; among the signals that qualify it returns the
    one with the lowest address; and it aborts exactly when no known
    signal qualifies. *)
Theorem find_signal_named_finds (E : VhdlState.externals) (g : VhdlState.globals)
  (name : string) (sc : VhdlState.vhdl_scope_ptr) :
  VhdlState.ascending (map fst (VhdlState.g_known_signals g)) ->
  (forall sig,
     VhdlState.find_signal_named E g name sc = Done sig ->
     VhdlState.get_renamed_signal g sig = Done name /\
     (VhdlState.find_scope_for_signal g sig = Some sc \/
      VhdlState.find_scope_for_signal g sig = VhdlState.get_parent E sc) /\
     forall sig' defn,
       sig' < sig ->
       VhdlState.map_find sig' (VhdlState.g_known_signals g) = Some defn ->
       VhdlState.names_signal E name sc defn = false) /\
  (VhdlState.find_signal_named E g name sc = Abort <->
   forall sig defn,
     VhdlState.map_find sig (VhdlState.g_known_signals g) = Some defn ->
     VhdlState.names_signal E name sc defn = false).
Proof.
  intro Hasc.
  destruct (find_signal_loop_spec E name sc _ Hasc) as [Hdone Habort].
  unfold VhdlState.find_signal_named, VhdlState.get_renamed_signal,
    VhdlState.find_scope_for_signal.
  split; [|exact Habort].
  intros sig Hr. destruct (Hdone sig Hr) as (defn & Hf & Hn & Hlow).
  rewrite Hf. apply names_signal_true in Hn as [Hs Hname].
  split; [now rewrite Hname|]. split; [exact Hs | exact Hlow].
Qed.

Lemma find_signal_named_finds_witness :
  VhdlState.get_renamed_signal
    (VhdlState.mk_globals []
       [(3, VhdlState.mk_defn "q" (Some 9)); (5, VhdlState.mk_defn "d" (Some 2));
        (8, VhdlState.mk_defn "d" (Some 1))] None [])
    5 = Done "d"%string.
Proof.
  destruct (find_signal_named_finds
              (VhdlState.mk_externals (fun _ => "x"%string) (fun _ => "top"%string)
                 (fun _ => true) (fun s => if Nat.eqb s 1 then Some 2 else None)
                 (fun _ => "top"%string) (fun _ => 0%Z))
              (VhdlState.mk_globals []
                 [(3, VhdlState.mk_defn "q" (Some 9)); (5, VhdlState.mk_defn "d" (Some 2));
                  (8, VhdlState.mk_defn "d" (Some 1))] None [])
              "d"%string 1) as [H _].
  - simpl. lia.
  - destruct (H 5 eq_refl) as [Hn _]. exact Hn.
Defined.

(** X15.  A signal remembered in a scope can be found again by its base
    name from that scope: on a well-formed map the search after
    [remember_signal] does not abort, and it returns that signal or one
    at a lower address that carries the same VHDL name. *)
Theorem remember_then_find_signal
  (E : VhdlState.externals) (g g' : VhdlState.globals)
  (sig : VhdlState.ivl_signal_t) (sc : VhdlState.vhdl_scope_ptr) :
  VhdlState.ascending (map fst (VhdlState.g_known_signals g)) ->
  VhdlState.remember_signal E g sig (Some sc) = Done g' ->
  VhdlState.ascending (map fst (VhdlState.g_known_signals g')) /\
  exists sig',
    VhdlState.find_signal_named E g' (VhdlState.ivl_signal_basename E sig) sc
      = Done sig' /\
    sig' <= sig /\
    VhdlState.get_renamed_signal g' sig' = Done (VhdlState.ivl_signal_basename E sig).
Proof.
  intros Hasc. unfold VhdlState.remember_signal.
  destruct (negb (negb (VhdlState.seen_signal_before g sig))); [discriminate|].
  intros [= <-]. simpl.
  set (defn := VhdlState.mk_defn (VhdlState.ivl_signal_basename E sig) (Some sc)).
  set (g' := VhdlState.with_known_signals g
               (VhdlState.map_set sig defn (VhdlState.g_known_signals g))).
  assert (Hasc' : VhdlState.ascending (map fst (VhdlState.g_known_signals g')))
    by (apply map_set_ascending; exact Hasc).
  split; [exact Hasc'|].
  assert (Hf : VhdlState.map_find sig (VhdlState.g_known_signals g') = Some defn)
    by apply map_find_set_same.
  assert (Hn : VhdlState.names_signal E (VhdlState.ivl_signal_basename E sig) sc defn
               = true) by (apply names_signal_true; simpl; auto).
  destruct (find_signal_loop_spec E (VhdlState.ivl_signal_basename E sig) sc _ Hasc')
    as [Hdone Habort].
  unfold VhdlState.find_signal_named, VhdlState.get_renamed_signal.
  destruct (VhdlState.find_signal_loop E (VhdlState.ivl_signal_basename E sig) sc
              (VhdlState.g_known_signals g')) as [sig'|] eqn:Er.
  - exists sig'. destruct (Hdone sig' eq_refl) as (d & Hd & Hnd & Hlow).
    split; [reflexivity|]. split.
    + destruct (Nat.le_gt_cases sig' sig) as [Hle|Hgt]; [exact Hle|].
      rewrite (Hlow sig defn Hgt Hf) in Hn. discriminate Hn.
    + rewrite Hd. apply names_signal_true in Hnd as [_ Hname]. now rewrite Hname.
  - rewrite (proj1 Habort eq_refl sig defn Hf) in Hn. discriminate Hn.
Qed.

Lemma remember_then_find_signal_witness :
  exists sig',
    VhdlState.find_signal_named
      (VhdlState.mk_externals (fun _ => "d"%string) (fun _ => "top"%string)
         (fun _ => true) (fun _ => None) (fun _ => "top"%string) (fun _ => 0%Z))
      (VhdlState.mk_globals []
         [(3, VhdlState.mk_defn "q" (Some 1)); (5, VhdlState.mk_defn "d" (Some 1))]
         None [])
      "d"%string 1 = Done sig' /\ sig' <= 5.
Proof.
  destruct (remember_then_find_signal
              (VhdlState.mk_externals (fun _ => "d"%string) (fun _ => "top"%string)
                 (fun _ => true) (fun _ => None) (fun _ => "top"%string) (fun _ => 0%Z))
              (VhdlState.mk_globals [] [(3, VhdlState.mk_defn "q" (Some 1))] None [])
              (VhdlState.mk_globals []
                 [(3, VhdlState.mk_defn "q" (Some 1)); (5, VhdlState.mk_defn "d" (Some 1))]
                 None [])
              5 1) as (_ & sig' & Hr & Hle & _).
  - simpl. auto.
  - reflexivity.
  - exists sig'. split; [exact Hr | exact Hle].
Defined.

(** ** Default scopes *)

Lemma set_insert_in (k x : nat) (s : list nat) :
  In x (VhdlState.set_insert k s) <-> x = k \/ In x s.
Proof.
  induction s as [|k' s IH]; simpl.
  - intuition.
  - destruct (k <? k'); simpl; [intuition|].
    destruct (Nat.eqb_spec k k') as [->|Hne]; simpl; [intuition|].
    rewrite IH. intuition.
Qed.

Lemma is_default_in (g : VhdlState.globals) (s : nat) :
  VhdlState.is_default_scope_instance g s = true <->
  In s (VhdlState.g_default_scopes g).
Proof.
  unfold VhdlState.is_default_scope_instance.
  destruct (find (Nat.eqb s) (VhdlState.g_default_scopes g)) as [x|] eqn:E.
  - apply find_some in E as [Hin Hx]. apply Nat.eqb_eq in Hx. subst x.
    split; auto.
  - split; [discriminate|]. intro Hin.
    pose proof (find_none _ _ E s Hin) as K. now rewrite Nat.eqb_refl in K.
Qed.

Lemma find_same_type_none (E : VhdlState.externals) (s : nat) (l : list nat) :
  find (VhdlState.same_scope_type_name E s) l = None <->
  forall x, In x l -> VhdlState.ivl_scope_tname E x <> VhdlState.ivl_scope_tname E s.
Proof.
  split.
  - intros H x Hin Heq. pose proof (find_none _ _ H x Hin) as K.
    unfold VhdlState.same_scope_type_name in K.
    rewrite Heq, String.eqb_refl in K. discriminate K.
  - intro H. destruct (find (VhdlState.same_scope_type_name E s) l) as [x|] eqn:Ef;
      [|reflexivity].
    apply find_some in Ef as [Hin Hx].
    unfold VhdlState.same_scope_type_name in Hx. apply String.eqb_eq in Hx.
    exfalso. apply (H x Hin). now symmetry.
Qed.

Lemma set_insert_nodup (f : nat -> string) (k : nat) (s : list nat) :
  NoDup (map f s) -> (forall x, In x s -> f x <> f k) ->
  NoDup (map f (VhdlState.set_insert k s)).
Proof.
  induction s as [|k' s IH]; intros Hnd Hne; simpl.
  - constructor; [easy | constructor].
  - destruct (k <? k'); [|destruct (Nat.eqb k k')]; simpl.
    + constructor; [|exact Hnd].
      intro Hin. apply (in_map_iff f (k' :: s)) in Hin as (x & Hfx & Hx).
      now apply (Hne x Hx).
    + exact Hnd.
    + inversion Hnd as [|? ? Hk' Hnd']; subst.
      constructor.
      * intro Hin. apply in_map_iff in Hin as (x & Hfx & Hx).
        apply set_insert_in in Hx as [-> | Hx].
        -- apply (Hne k'); [now left | now symmetry].
        -- apply Hk'. rewrite <- Hfx. now apply in_map.
      * apply IH; [exact Hnd'|]. intros x Hx. apply Hne. now right.
Qed.

Lemma nodup_map_injective (f : nat -> string) (l : list nat) (a b : nat) :
  NoDup (map f l) -> In a l -> In b l -> f a = f b -> a = b.
Proof.
  induction l as [|x l IH]; intros Hnd Ha Hb Hf; [easy|].
  inversion Hnd as [|? ? Hx Hnd']; subst.
  destruct Ha as [-> | Ha], Hb as [-> | Hb]; auto.
  - exfalso. apply Hx. rewrite Hf. now apply in_map.
  - exfalso. apply Hx. rewrite <- Hf. now apply in_map.
Qed.

(** X16.  [seen_this_scope_type] returns true exactly when a default scope
    of the same type name is already recorded, and then changes nothing;
    otherwise it records the scope as a default instance.  Either way no
    default instance is lost, a second question about any scope of that
    type name is answered true without a change, and the default scopes
    keep holding at most one scope per type name. *)
Theorem seen_this_scope_type_records
  (E : VhdlState.externals) (g : VhdlState.globals) (s : VhdlState.ivl_scope_t) :
  (fst (VhdlState.seen_this_scope_type E g s) = true <->
   exists x, In x (VhdlState.g_default_scopes g) /\
             VhdlState.ivl_scope_tname E x = VhdlState.ivl_scope_tname E s) /\
  (fst (VhdlState.seen_this_scope_type E g s) = true ->
   snd (VhdlState.seen_this_scope_type E g s) = g) /\
  (fst (VhdlState.seen_this_scope_type E g s) = false ->
   VhdlState.is_default_scope_instance
     (snd (VhdlState.seen_this_scope_type E g s)) s = true) /\
  (forall x, VhdlState.is_default_scope_instance g x = true ->
     VhdlState.is_default_scope_instance
       (snd (VhdlState.seen_this_scope_type E g s)) x = true) /\
  (forall s', VhdlState.ivl_scope_tname E s' = VhdlState.ivl_scope_tname E s ->
     VhdlState.seen_this_scope_type E
       (snd (VhdlState.seen_this_scope_type E g s)) s'
     = (true, snd (VhdlState.seen_this_scope_type E g s))) /\
  (VhdlState.one_scope_per_type E g ->
   VhdlState.one_scope_per_type E (snd (VhdlState.seen_this_scope_type E g s))).
Proof.
  unfold VhdlState.seen_this_scope_type.
  destruct (find (VhdlState.same_scope_type_name E s) (VhdlState.g_default_scopes g))
    as [x|] eqn:Ef; simpl.
  - pose proof (find_some _ _ Ef) as [Hin Hx].
    unfold VhdlState.same_scope_type_name in Hx. apply String.eqb_eq in Hx.
    split; [split; [intros _; exists x; auto | reflexivity]|].
    split; [reflexivity|]. split; [discriminate|]. split; [auto|].
    split; [|auto].
    intros s' Hs'.
    destruct (find (VhdlState.same_scope_type_name E s') (VhdlState.g_default_scopes g))
      as [y|] eqn:Ef'; [reflexivity|].
    exfalso. apply (proj1 (find_same_type_none E s' _) Ef' x Hin). congruence.
  - pose proof (proj1 (find_same_type_none E s _) Ef) as Hnone.
    split; [split; [discriminate | intros (x & Hin & Hx); now elim (Hnone x Hin)]|].
    split; [discriminate|].
    split; [intros _; apply is_default_in; simpl; apply set_insert_in; now left|].
    split; [intros x Hx; apply is_default_in; simpl; apply set_insert_in; right;
            now apply is_default_in|].
    split.
    + intros s' Hs'.
      destruct (find (VhdlState.same_scope_type_name E s')
                  (VhdlState.set_insert s (VhdlState.g_default_scopes g)))
        as [y|] eqn:Ef'; [reflexivity|].
      exfalso. apply (proj1 (find_same_type_none E s' _) Ef' s).
      * apply set_insert_in. now left.
      * now symmetry.
    + unfold VhdlState.one_scope_per_type. simpl. intro Hnd.
      apply set_insert_nodup; [exact Hnd | exact Hnone].
Qed.

Lemma seen_this_scope_type_records_witness :
  VhdlState.is_default_scope_instance
    (snd (VhdlState.seen_this_scope_type
            (VhdlState.mk_externals (fun _ => "x"%string)
               (fun s => if s <? 10 then "alu"%string else "top"%string)
               (fun _ => true) (fun _ => None) (fun _ => "top"%string) (fun _ => 0%Z))
            (VhdlState.mk_globals [] [] None [12]) 4)) 4 = true.
Proof.
  destruct (seen_this_scope_type_records
              (VhdlState.mk_externals (fun _ => "x"%string)
                 (fun s => if s <? 10 then "alu"%string else "top"%string)
                 (fun _ => true) (fun _ => None) (fun _ => "top"%string) (fun _ => 0%Z))
              (VhdlState.mk_globals [] [] None [12]) 4) as (_ & _ & H & _).
  apply H. reflexivity.
Defined.

(** X17.  After [seen_this_scope_type] on a scope, and given that the
    default scopes held at most one scope per type name before, exactly
    one default scope has that scope's type name: every other scope of
    the type is not a default instance. *)
Theorem one_default_scope_per_type
  (E : VhdlState.externals) (g : VhdlState.globals) (s : VhdlState.ivl_scope_t) :
  VhdlState.one_scope_per_type E g ->
  exists d,
    VhdlState.is_default_scope_instance
      (snd (VhdlState.seen_this_scope_type E g s)) d = true /\
    VhdlState.ivl_scope_tname E d = VhdlState.ivl_scope_tname E s /\
    forall d',
      VhdlState.ivl_scope_tname E d' = VhdlState.ivl_scope_tname E s ->
      d' <> d ->
      VhdlState.is_default_scope_instance
        (snd (VhdlState.seen_this_scope_type E g s)) d' = false.
Proof.
  intro Hone.
  assert (Huniq : forall l d d',
             NoDup (map (VhdlState.ivl_scope_tname E) l) -> In d l ->
             VhdlState.ivl_scope_tname E d' = VhdlState.ivl_scope_tname E d ->
             d' <> d ->
             VhdlState.is_default_scope_instance
               (VhdlState.mk_globals (VhdlState.g_entities g)
                  (VhdlState.g_known_signals g) (VhdlState.g_active_entity g) l) d'
             = false).
  { intros l d d' Hnd Hd Hname Hne.
    destruct (VhdlState.is_default_scope_instance _ d') eqn:Ed; [|reflexivity].
    apply is_default_in in Ed. simpl in Ed.
    now elim Hne; apply (nodup_map_injective _ l d' d Hnd Ed Hd). }
  unfold VhdlState.seen_this_scope_type.
  destruct (find (VhdlState.same_scope_type_name E s) (VhdlState.g_default_scopes g))
    as [x|] eqn:Ef; simpl.
  - pose proof (find_some _ _ Ef) as [Hin Hx].
    unfold VhdlState.same_scope_type_name in Hx. apply String.eqb_eq in Hx.
    exists x. split; [now apply is_default_in|]. split; [now symmetry|].
    intros d' Hname Hne. destruct g as [ge gk ga gd]; simpl in *.
    apply (Huniq gd x d' Hone Hin); [congruence | exact Hne].
  - pose proof (proj1 (find_same_type_none E s _) Ef) as Hnone.
    exists s. split; [apply is_default_in; simpl; apply set_insert_in; now left|].
    split; [reflexivity|].
    intros d' Hname Hne.
    apply (Huniq _ s d'); auto.
    + apply set_insert_nodup; [exact Hone | exact Hnone].
    + apply set_insert_in. now left.
Qed.

Lemma one_default_scope_per_type_witness :
  exists d,
    VhdlState.is_default_scope_instance
      (snd (VhdlState.seen_this_scope_type
              (VhdlState.mk_externals (fun _ => "x"%string)
                 (fun s => if s <? 10 then "alu"%string else "top"%string)
                 (fun _ => true) (fun _ => None) (fun _ => "top"%string) (fun _ => 0%Z))
              (VhdlState.mk_globals [] [] None [4; 12]) 7)) d = true /\
    (if d <? 10 then "alu"%string else "top"%string) = "alu"%string.
Proof.
  destruct (one_default_scope_per_type
              (VhdlState.mk_externals (fun _ => "x"%string)
                 (fun s => if s <? 10 then "alu"%string else "top"%string)
                 (fun _ => true) (fun _ => None) (fun _ => "top"%string) (fun _ => 0%Z))
              (VhdlState.mk_globals [] [] None [4; 12]) 7) as (d & Hd & Hn & _).
  - unfold VhdlState.one_scope_per_type. simpl.
    repeat constructor; simpl; intuition discriminate.
  - exists d. split; [exact Hd | exact Hn].
Defined.

(** ** Entities *)

Lemma find_first {A : Type} (p : A -> bool) (l : list A) (x : A) :
  find p l = Some x ->
  exists l1 l2, l = l1 ++ x :: l2 /\ p x = true /\ forall y, In y l1 -> p y = false.
Proof.
  induction l as [|a l IH]; simpl; [discriminate|].
  destruct (p a) eqn:Ea.
  - intros [= ->]. exists [], l. repeat split; easy.
  - intro H. destruct (IH H) as (l1 & l2 & -> & Hx & Hl).
    exists (a :: l1), l2. repeat split; auto.
    intros y [<- | Hy]; auto.
Qed.

Lemma find_app {A : Type} (p : A -> bool) (l1 l2 : list A) :
  find p (l1 ++ l2) = match find p l1 with Some x => Some x | None => find p l2 end.
Proof.
  induction l1 as [|a l1 IH]; simpl; [reflexivity|].
  now destruct (p a).
Qed.

(** X18.  [find_entity] aborts for a scope that is not a module.  For a
    module it returns the first remembered entity whose name is the
    scope's type name, and NULL exactly when none has that name; so an
    entity remembered later under a name already taken is never found,
    and one remembered under a new name is found from then on. *)
Theorem find_entity_first
  (E : VhdlState.externals) (g : VhdlState.globals) (sc : VhdlState.ivl_scope_t) :
  (VhdlState.ivl_scope_is_module E sc = false ->
   VhdlState.find_entity E g sc = Abort) /\
  (VhdlState.ivl_scope_is_module E sc = true ->
   (forall ent,
      VhdlState.find_entity E g sc = Done (Some ent) ->
      VhdlState.get_name E ent = VhdlState.ivl_scope_tname E sc /\
      exists l1 l2,
        VhdlState.g_entities g = l1 ++ ent :: l2 /\
        forall e, In e l1 ->
          VhdlState.get_name E e <> VhdlState.ivl_scope_tname E sc) /\
   (VhdlState.find_entity E g sc = Done None <->
    forall e, In e (VhdlState.g_entities g) ->
      VhdlState.get_name E e <> VhdlState.ivl_scope_tname E sc) /\
   (forall ent later,
      VhdlState.find_entity E g sc = Done (Some ent) ->
      VhdlState.find_entity E (VhdlState.remember_entity g later) sc
      = Done (Some ent)) /\
   (forall later,
      VhdlState.find_entity E g sc = Done None ->
      VhdlState.get_name E later = VhdlState.ivl_scope_tname E sc ->
      VhdlState.find_entity E (VhdlState.remember_entity g later) sc
      = Done (Some later))).
Proof.
  unfold VhdlState.find_entity. split; intros ->; [reflexivity|].
  simpl negb. cbv iota.
  assert (Hcmp : forall e,
             VhdlState.cmp_ent_name E (VhdlState.ivl_scope_tname E sc) e = false <->
             VhdlState.get_name E e <> VhdlState.ivl_scope_tname E sc).
  { intro e. unfold VhdlState.cmp_ent_name. apply String.eqb_neq. }
  split; [|split; [|split]].
  - intros ent [= Hf]. destruct (find_first _ _ _ Hf) as (l1 & l2 & Hl & Hp & Hno).
    split; [now apply String.eqb_eq in Hp|].
    exists l1, l2. split; [exact Hl|]. intros e He. apply Hcmp. now apply Hno.
  - split.
    + intros [= Hf] e He. apply Hcmp. exact (find_none _ _ Hf e He).
    + intro Hall. f_equal.
      destruct (find _ (VhdlState.g_entities g)) as [x|] eqn:Ef; [|reflexivity].
      apply find_some in Ef as [Hin Hx]. apply String.eqb_eq in Hx.
      now elim (Hall x Hin).
  - intros ent later [= Hf]. simpl. now rewrite find_app, Hf.
  - intros later [= Hf] Hname. simpl. rewrite find_app, Hf. simpl.
    unfold VhdlState.cmp_ent_name. now rewrite Hname, String.eqb_refl.
Qed.

Lemma find_entity_first_witness :
  VhdlState.find_entity
    (VhdlState.mk_externals (fun _ => "x"%string) (fun _ => "alu"%string)
       (fun _ => true) (fun _ => None)
       (fun e => if e <? 10 then "top"%string else "alu"%string) (fun _ => 0%Z))
    (VhdlState.remember_entity (VhdlState.mk_globals [1; 2] [] None []) 11) 0
  = Done (Some 11).
Proof.
  destruct (find_entity_first
              (VhdlState.mk_externals (fun _ => "x"%string) (fun _ => "alu"%string)
                 (fun _ => true) (fun _ => None)
                 (fun e => if e <? 10 then "top"%string else "alu"%string)
                 (fun _ => 0%Z))
              (VhdlState.mk_globals [1; 2] [] None []) 0) as [_ H].
  destruct (H eq_refl) as (_ & _ & _ & Hnew).
  apply Hnew; reflexivity.
Defined.

(** X19.  [emit_all_entities] emits entities in the order they were
    remembered: all of them when the depth limit is 0, and otherwise
    exactly those whose depth is below the limit.  Remembering one more
    entity only adds it at the end of what is emitted, and after
    [free_all_vhdl_objects] nothing is emitted and no entity is found. *)
Theorem emit_all_entities_order
  (E : VhdlState.externals) (g : VhdlState.globals)
  (ent : VhdlState.vhdl_entity_ptr) (max_depth : Z) :
  VhdlState.emit_all_entities E g 0 = VhdlState.g_entities g /\
  (forall e, In e (VhdlState.emit_all_entities E g max_depth) <->
     In e (VhdlState.g_entities g) /\
     (max_depth = 0 \/ VhdlState.depth E e < max_depth)%Z) /\
  VhdlState.emit_all_entities E (VhdlState.remember_entity g ent) max_depth
  = (VhdlState.emit_all_entities E g max_depth ++
     (if ((max_depth =? 0) || (VhdlState.depth E ent <? max_depth))%Z
      then [ent] else []))%list /\
  VhdlState.emit_all_entities E (VhdlState.free_all_vhdl_objects g) max_depth = [] /\
  (forall sc, VhdlState.ivl_scope_is_module E sc = true ->
     VhdlState.find_entity E (VhdlState.free_all_vhdl_objects g) sc = Done None).
Proof.
  unfold VhdlState.emit_all_entities.
  split; [|split; [|split; [|split]]].
  - simpl. induction (VhdlState.g_entities g) as [|a l IH]; simpl; congruence.
  - intro e. rewrite filter_In, orb_true_iff, Z.eqb_eq, Z.ltb_lt. reflexivity.
  - simpl. rewrite filter_app. simpl.
    now destruct ((max_depth =? 0)%Z || (VhdlState.depth E ent <? max_depth)%Z).
  - reflexivity.
  - intros sc Hm. unfold VhdlState.find_entity. now rewrite Hm.
Qed.

Lemma emit_all_entities_order_witness :
  VhdlState.emit_all_entities
    (VhdlState.mk_externals (fun _ => "x"%string) (fun _ => "alu"%string)
       (fun _ => true) (fun _ => None) (fun _ => "top"%string)
       (fun e => Z.of_nat e))
    (VhdlState.remember_entity (VhdlState.mk_globals [1; 5; 2] [] None []) 0) 3
  = [1; 2; 0] /\
  VhdlState.find_entity
    (VhdlState.mk_externals (fun _ => "x"%string) (fun _ => "alu"%string)
       (fun _ => true) (fun _ => None) (fun _ => "top"%string)
       (fun e => Z.of_nat e))
    (VhdlState.free_all_vhdl_objects (VhdlState.mk_globals [1; 5; 2] [] None [])) 7
  = Done None.
Proof.
  destruct (emit_all_entities_order
              (VhdlState.mk_externals (fun _ => "x"%string) (fun _ => "alu"%string)
                 (fun _ => true) (fun _ => None) (fun _ => "top"%string)
                 (fun e => Z.of_nat e))
              (VhdlState.mk_globals [1; 5; 2] [] None []) 0 3)
    as (_ & _ & Hadd & _ & Hfree).
  split; [rewrite Hadd; reflexivity | apply Hfree; reflexivity].
Defined.
